(** * wefrh_trans: the PHP translation-file engine

    A shallow embedding of the extraction / rewrite core of
    [file_handler.py] and of the cache and grouping helpers of [utils.py],
    together with the properties stated about them.

    Python strings are sequences of Unicode code points: a text is a list of
    integers.  The interpreter facilities the program calls ([str] methods and
    the [re] module, CPython 3.7 and later) are modelled once, in the first
    part of the file; the program's own functions follow, each under the name
    it has in the source. *)

From Stdlib Require Import ZArith List Bool Lia String Ascii QArith.
From stdpp Require Import base option list gmap.

Local Open Scope Z_scope.

(** ** Texts *)

Definition char := Z.
Definition str := list Z.

(** An ASCII literal of the source as a text. *)
Definition u (s : string) : str :=
  List.map (fun a => Z.of_N (N_of_ascii a)) (list_ascii_of_string s).

Definition str_eqb (a b : str) : bool := bool_decide (a = b).

(** *** What the Unicode database decides

    Outside ASCII the classification of a character ([str.isalnum],
    [str.isdecimal], [str.isdigit]), the lower-casing of a text and the
    reading of a group name as a number are tables of the interpreter; they
    are taken as given. *)
Class UnicodeData := {
  uc_alnum : Z -> bool;
  uc_decimal : Z -> bool;
  uc_digit : Z -> bool;
  uc_lower : str -> str;
  uc_group_index : str -> option nat
}.

Definition in_range (lo hi c : Z) : bool := (lo <=? c) && (c <=? hi).

Definition is_ascii (c : Z) : bool := in_range 0 127 c.
Definition ascii_upper (c : Z) : bool := in_range 65 90 c.
Definition ascii_lower (c : Z) : bool := in_range 97 122 c.
Definition ascii_letter (c : Z) : bool := ascii_upper c || ascii_lower c.
Definition ascii_digit (c : Z) : bool := in_range 48 57 c.
Definition oct_digit (c : Z) : bool := in_range 48 55 c.

(** [str.isspace] of one character, which is also the class [\s]: the
    characters of bidirectional type WS, B or S and of category Zs. *)
Definition is_space (c : Z) : bool :=
  in_range 9 13 c || in_range 28 32 c || (c =? 133) || (c =? 160) ||
  (c =? 5760) || in_range 8192 8202 c || (c =? 8232) || (c =? 8233) ||
  (c =? 8239) || (c =? 8287) || (c =? 12288).

Section Texts.
Context {ud : UnicodeData}.

(** The class [\d]. *)
Definition is_decimal (c : Z) : bool :=
  if is_ascii c then ascii_digit c else uc_decimal c.

(** The class [\w]. *)
Definition is_word (c : Z) : bool :=
  if is_ascii c then ascii_letter c || ascii_digit c || (c =? 95)
  else uc_alnum c.

(** One character of [str.isdigit]. *)
Definition is_digit_char (c : Z) : bool :=
  if is_ascii c then ascii_digit c else uc_digit c.

(** [s.isdigit()] *)
Definition isdigit (s : str) : bool :=
  negb (bool_decide (s = [])) && forallb is_digit_char s.

(** [s.lower()] *)
Definition lower (s : str) : str :=
  if forallb is_ascii s
  then List.map (fun c => if ascii_upper c then c + 32 else c) s
  else uc_lower s.

End Texts.

Fixpoint lstrip (s : str) : str :=
  match s with
  | c :: s' => if is_space c then lstrip s' else s
  | [] => []
  end.

Definition rstrip (s : str) : str := rev (lstrip (rev s)).

(** [s.strip()] *)
Definition strip (s : str) : str := rstrip (lstrip s).

(** [s.startswith(p)] *)
Fixpoint startswith (s p : str) : bool :=
  match p, s with
  | [], _ => true
  | c :: p', d :: s' => (c =? d) && startswith s' p'
  | _ :: _, [] => false
  end.

(** [p in s] *)
Fixpoint contains (s p : str) : bool :=
  startswith s p ||
  match s with
  | [] => false
  | _ :: s' => contains s' p
  end.

(** [s.replace(old, new)]: the occurrences of [old] are replaced from the
    left and do not overlap; [skip] counts the characters of an occurrence
    still to pass.  An empty [old] puts [new] before every character and at
    the end. *)
Fixpoint replace_from (old new : str) (skip : nat) (s : str) : str :=
  match s with
  | [] => []
  | c :: s' =>
      match skip with
      | S k => replace_from old new k s'
      | O =>
          if startswith s old
          then new ++ replace_from old new (length old - 1)%nat s'
          else c :: replace_from old new 0%nat s'
      end
  end.

Definition replace (old new s : str) : str :=
  match old with
  | [] => new ++ flat_map (fun c => c :: new) s
  | _ :: _ => replace_from old new 0%nat s
  end.

(** [s.split(sep)] for a one-character separator: never an empty list. *)
Fixpoint split_on (sep : Z) (s : str) : list str :=
  match s with
  | [] => [[]]
  | c :: s' =>
      if c =? sep then [] :: split_on sep s'
      else match split_on sep s' with
           | l :: ls => (c :: l) :: ls
           | [] => [[c]]
           end
  end.

(** [sep.join(parts)] for a one-character separator. *)
Fixpoint join_on (sep : Z) (parts : list str) : str :=
  match parts with
  | [] => []
  | [p] => p
  | p :: ps => p ++ sep :: join_on sep ps
  end.

(** [s.split()]: the maximal runs of non-space characters. *)
Fixpoint split_ws_from (cur : str) (s : str) : list str :=
  match s with
  | [] => match cur with [] => [] | _ => [rev cur] end
  | c :: s' =>
      if is_space c
      then match cur with
           | [] => split_ws_from [] s'
           | _ => rev cur :: split_ws_from [] s'
           end
      else split_ws_from (c :: cur) s'
  end.

Definition split_ws (s : str) : list str := split_ws_from [] s.

Definition LF : Z := 10.

(** [len(s)] *)
Definition len {A} (s : list A) : Z := Z.of_nat (length s).

(** ** Regular expressions

    Every pattern of the program is a sequence of literals, assertions,
    group marks and one-character classes under a greedy quantifier, so a
    pattern is a list of such nodes.  Matching follows the backtracking
    order of [re]: a quantified class first takes the longest run allowed
    and then gives characters back one at a time. *)

Definition cset := Z -> bool.

Inductive node :=
| Chars (p : cset) (lo : nat) (hi : option nat)
| Lit (s : str)
| Bol
| Eol
| WordB
| Open (g : nat)
| Close (g : nat).

Definition regex := list node.

Definition one (p : cset) : node := Chars p 1 (Some 1%nat).
Definition opt (p : cset) : node := Chars p 0 (Some 1%nat).
Definition star (p : cset) : node := Chars p 0 None.
Definition plus (p : cset) : node := Chars p 1 None.

Definition is_char (c : Z) : cset := fun d => d =? c.
Definition not_char (c : Z) : cset := fun d => negb (d =? c).
(** The class of [.]: any character but a line feed. *)
Definition dot : cset := not_char 10.

(** The state of one matching attempt: the characters before the current
    position (nearest first), the characters after it, the positions at which
    groups were opened and the texts of the groups closed so far. *)
Record mstate := MState {
  seen : str;
  rest : str;
  opened : list (nat * nat);
  caps : list (nat * str)
}.

Fixpoint assoc {A} (g : nat) (l : list (nat * A)) : option A :=
  match l with
  | [] => None
  | (h, x) :: l' => if (h =? g)%nat then Some x else assoc g l'
  end.

Fixpoint run_len (p : cset) (l : str) : nat :=
  match l with
  | c :: l' => if p c then S (run_len p l') else O
  | [] => O
  end.

Definition run_max (p : cset) (hi : option nat) (l : str) : nat :=
  match hi with
  | Some h => Nat.min h (run_len p l)
  | None => run_len p l
  end.

Fixpoint shift (n : nat) (sn rs : str) : str * str :=
  match n, rs with
  | S k, c :: rs' => shift k (c :: sn) rs'
  | _, _ => (sn, rs)
  end.

Definition consume (n : nat) (st : mstate) : mstate :=
  let '(sn, rs) := shift n (seen st) (rest st) in
  MState sn rs (opened st) (caps st).

(** Try [k] on [n], then on [n - 1], ... down to [lo]. *)
Fixpoint give_back {A} (k : nat -> option A) (n lo : nat) : option A :=
  match k n with
  | Some r => Some r
  | None =>
      match n with
      | O => None
      | S n' => if (lo <=? n')%nat then give_back k n' lo else None
      end
  end.

(** A match object: where the match starts and ends, and its groups. *)
Record rmatch := RMatch {
  m_start : nat;
  m_end : nat;
  m_text : str;
  m_groups : list (nat * str)
}.

Definition matched (o : option rmatch) : bool :=
  match o with Some _ => true | None => false end.

(** [m.group(g)] *)
Definition group (m : rmatch) (g : nat) : str :=
  match g with
  | O => m_text m
  | _ => default [] (assoc g (m_groups m))
  end.

Inductive tpl_item := TChar (c : Z) | TGroup (g : nat).

Definition escape_char (c : Z) : option Z :=
  if c =? 97 then Some 7 else if c =? 98 then Some 8
  else if c =? 102 then Some 12 else if c =? 110 then Some 10
  else if c =? 114 then Some 13 else if c =? 116 then Some 9
  else if c =? 118 then Some 11 else if c =? 92 then Some 92
  else None.

Fixpoint until_char (c : Z) (s : str) : option (str * str) :=
  match s with
  | [] => None
  | d :: s' =>
      if d =? c then Some ([], s')
      else match until_char c s' with
           | Some (a, b) => Some (d :: a, b)
           | None => None
           end
  end.

(** The text a matching attempt runs on. *)
Definition whole (st : mstate) : str := rev (seen st) ++ rest st.

Section Regex.
Context {ud : UnicodeData}.

Definition word_before (st : mstate) : bool :=
  match seen st with c :: _ => is_word c | [] => false end.
Definition word_after (st : mstate) : bool :=
  match rest st with c :: _ => is_word c | [] => false end.

Fixpoint m_nodes (ok : mstate -> bool) (r : regex) (st : mstate)
  : option mstate :=
  match r with
  | [] => if ok st then Some st else None
  | Chars p lo hi :: r' =>
      let mx := run_max p hi (rest st) in
      if (lo <=? mx)%nat
      then give_back (fun n => m_nodes ok r' (consume n st)) mx lo
      else None
  | Lit s :: r' =>
      if startswith (rest st) s
      then m_nodes ok r' (consume (length s) st)
      else None
  | Bol :: r' =>
      match seen st with
      | [] => m_nodes ok r' st
      | _ :: _ => None
      end
  | Eol :: r' =>
      match rest st with
      | [] => m_nodes ok r' st
      | [c] => if c =? 10 then m_nodes ok r' st else None
      | _ => None
      end
  | WordB :: r' =>
      if xorb (word_before st) (word_after st)
      then m_nodes ok r' st
      else None
  | Open g :: r' =>
      m_nodes ok r'
        (MState (seen st) (rest st) ((g, length (seen st)) :: opened st)
                (caps st))
  | Close g :: r' =>
      let from := default O (assoc g (opened st)) in
      let txt := rev (firstn (length (seen st) - from) (seen st)) in
      m_nodes ok r'
        (MState (seen st) (rest st) (opened st) ((g, txt) :: caps st))
  end.

(** One attempt at the position between [sn] and [rs].  With [advance] an
    empty match is refused, as after an empty match at the same place. *)
Definition match_at (advance : bool) (r : regex) (sn rs : str)
  : option rmatch :=
  let ok st := negb advance || negb (length (seen st) =? length sn)%nat in
  match m_nodes ok r (MState sn rs [] []) with
  | Some st =>
      Some (RMatch (length sn) (length (seen st))
              (rev (firstn (length (seen st) - length sn) (seen st)))
              (caps st))
  | None => None
  end.

(** [re.match(r, s)] *)
Definition re_match (r : regex) (s : str) : option rmatch :=
  match_at false r [] s.

Fixpoint search_from (r : regex) (sn rs : str) : option rmatch :=
  match match_at false r sn rs with
  | Some m => Some m
  | None =>
      match rs with
      | [] => None
      | c :: rs' => search_from r (c :: sn) rs'
      end
  end.

(** [re.search(r, s)] *)
Definition re_search (r : regex) (s : str) : option rmatch :=
  search_from r [] s.

(** The matches that start at one position: the first one and, when it is
    empty, the non-empty one found on the retry. *)
Definition matches_here (r : regex) (sn rs : str) : list rmatch :=
  match match_at false r sn rs with
  | None => []
  | Some m =>
      if (m_end m =? m_start m)%nat
      then m :: match match_at true r sn rs with
                | Some m2 => [m2]
                | None => []
                end
      else [m]
  end.

(** The successive non-overlapping matches, from the left; [skip] counts the
    positions inside the last match that remain to be passed. *)
Fixpoint scan (r : regex) (skip : nat) (sn rs : str) : list rmatch :=
  match skip with
  | S k =>
      match rs with
      | [] => []
      | c :: rs' => scan r k (c :: sn) rs'
      end
  | O =>
      let here := matches_here r sn rs in
      let skip' :=
        match List.last (List.map Some here) None with
        | Some m => (m_end m - m_start m - 1)%nat
        | None => O
        end in
      here ++ match rs with
              | [] => []
              | c :: rs' => scan r skip' (c :: sn) rs'
              end
  end.

(** [re.finditer(r, s)] *)
Definition re_finditer (r : regex) (s : str) : list rmatch := scan r 0 [] s.

(** [len(re.findall(r, s))] *)
Definition count_matches (r : regex) (s : str) : nat :=
  length (re_finditer r s).

(** The replacement template of [re.sub]: group references, octal and
    control escapes; [None] when the template is rejected. *)
Definition add_group (ngroups g : nat) (tl : option (list tpl_item))
  : option (list tpl_item) :=
  if (g <=? ngroups)%nat
  then match tl with Some l => Some (TGroup g :: l) | None => None end
  else None.

Definition add_chars (cs : str) (tl : option (list tpl_item))
  : option (list tpl_item) :=
  match tl with
  | Some l => Some (List.map TChar cs ++ l)
  | None => None
  end.

Definition dval (c : Z) : Z := c - 48.

Fixpoint parse_template (ngroups fuel : nat) (t : str)
  : option (list tpl_item) :=
  match fuel with
  | O => match t with [] => Some [] | _ :: _ => None end
  | S f =>
      let go := parse_template ngroups f in
      match t with
      | [] => Some []
      | c :: t0 =>
          if negb (c =? 92) then add_chars [c] (go t0)
          else
            match t0 with
            | [] => None
            | e :: t1 =>
                if e =? 103 then
                  match t1 with
                  | lt :: t2 =>
                      if lt =? 60 then
                        match until_char 62 t2 with
                        | Some (name, t3) =>
                            if existsb (Z.eqb 92) name then None
                            else match name with
                                 | [] => None
                                 | _ :: _ =>
                                     match uc_group_index name with
                                     | Some g => add_group ngroups g (go t3)
                                     | None => None
                                     end
                                 end
                        | None => None
                        end
                      else None
                  | [] => None
                  end
                else if e =? 48 then
                  match t1 with
                  | d1 :: t2 =>
                      if oct_digit d1 then
                        match t2 with
                        | d2 :: t3 =>
                            if oct_digit d2
                            then add_chars
                                   [Z.land (dval d1 * 8 + dval d2) 255] (go t3)
                            else add_chars [dval d1] (go t2)
                        | [] => add_chars [dval d1] (go t2)
                        end
                      else add_chars [0] (go t1)
                  | [] => add_chars [0] (go t1)
                  end
                else if ascii_digit e then
                  match t1 with
                  | d :: t2 =>
                      if ascii_digit d then
                        match t2 with
                        | o :: t3 =>
                            if oct_digit e && oct_digit d && oct_digit o then
                              let v := dval e * 64 + dval d * 8 + dval o in
                              if 255 <? v then None else add_chars [v] (go t3)
                            else add_group ngroups
                                   (Z.to_nat (dval e * 10 + dval d)) (go t2)
                        | [] => add_group ngroups
                                  (Z.to_nat (dval e * 10 + dval d)) (go t2)
                        end
                      else add_group ngroups (Z.to_nat (dval e)) (go t1)
                  | [] => add_group ngroups (Z.to_nat (dval e)) (go t1)
                  end
                else
                  match escape_char e with
                  | Some x => add_chars [x] (go t1)
                  | None =>
                      if ascii_letter e then None
                      else add_chars [92; e] (go t1)
                  end
            end
      end
  end.

Definition expand (tpl : list tpl_item) (m : rmatch) : str :=
  flat_map (fun i => match i with
                     | TChar c => [c]
                     | TGroup g => group m g
                     end) tpl.

Fixpoint assemble (tpl : list tpl_item) (s : str) (pos : nat)
    (ms : list rmatch) : str :=
  match ms with
  | [] => skipn pos s
  | m :: ms' =>
      firstn (m_start m - pos) (skipn pos s) ++ expand tpl m ++
      assemble tpl s (m_end m) ms'
  end.

Fixpoint count_groups (r : regex) : nat :=
  match r with
  | [] => O
  | Open _ :: r' => S (count_groups r')
  | _ :: r' => count_groups r'
  end.

(** [re.sub(r, template, s)]; [None] when the template raises. *)
Definition re_sub (r : regex) (template : str) (s : str) : option str :=
  match parse_template (count_groups r) (length template) template with
  | Some tpl => Some (assemble tpl s 0 (re_finditer r s))
  | None => None
  end.

End Regex.

(** ** utils.py *)

Definition is_arabic (c : Z) : bool :=
  in_range 0x600 0x6FF c || in_range 0x750 0x77F c || in_range 0x8A0 0x8FF c.

Section Utils.
Context {ud : UnicodeData}.

(** [re.sub(r, '', s)]: the empty template has nothing to parse. *)
Definition re_delete (r : regex) (s : str) : str :=
  assemble [] s 0 (re_finditer r s).

(** [has_arabic_content]: the quotient [arabic_chars / total_chars > 0.5] is
    compared exactly, as [total_chars < 2 * arabic_chars]. *)
Definition has_arabic_content (text : str) : bool :=
  match text with
  | [] => false
  | _ :: _ =>
      let clean_text :=
        re_delete [one (fun c => negb (is_word c || is_space c))] text in
      let clean_text := re_delete [plus is_decimal] clean_text in
      let arabic_chars := count_matches [one is_arabic] clean_text in
      let total_chars :=
        count_matches [one (fun c => ascii_letter c || is_arabic c)]
          clean_text in
      if (total_chars =? 0)%nat then false
      else (total_chars <? 2 * arabic_chars)%nat
  end.

(** [clean_text_for_cache] *)
Definition clean_text_for_cache (text : str) : str :=
  match text with
  | [] => []
  | _ :: _ => strip (lower text)
  end.

(** [TranslationCache]: the dictionary in memory and the one last written to
    the cache file. *)
Record TranslationCache := {
  cache : gmap str str;
  cache_file : gmap str str
}.

(** [TranslationCache.save_cache]; a failed write is reported and leaves the
    file as it was. *)
Definition save_cache (write_ok : bool) (c : TranslationCache)
  : TranslationCache :=
  {| cache := cache c;
     cache_file := if write_ok then cache c else cache_file c |}.

(** [TranslationCache.get] *)
Definition cache_get (c : TranslationCache) (text : str) : option str :=
  let clean_text := clean_text_for_cache text in
  cache c !! clean_text.

(** [TranslationCache.set] *)
Definition cache_set (write_ok : bool) (c : TranslationCache)
    (text translation : str) : TranslationCache :=
  let clean_text := clean_text_for_cache text in
  let c' := {| cache := <[clean_text := translation]> (cache c);
               cache_file := cache_file c |} in
  if (size (cache c') mod 10 =? 0)%nat then save_cache write_ok c' else c'.

(** [calculate_similarity], local to [smart_text_grouping]: the quotient of
    two counts is kept as an exact fraction. *)
Definition word_set (text : str) : gset str :=
  list_to_set (split_ws (lower text)).

Definition calculate_similarity (text1 text2 : str) : Q :=
  let words1 := word_set text1 in
  let words2 := word_set text2 in
  if bool_decide (words1 = ∅) || bool_decide (words2 = ∅) then 0%Q
  else
    let intersection := size (words1 ∩ words2) in
    let union := size (words1 ∪ words2) in
    if (0 <? union)%nat
    then Qmake (Z.of_nat intersection) (Pos.of_nat union)
    else 0%Q.

(** [similarity >= similarity_threshold] for the seed of a group and a
    text. *)
Definition similar (threshold : Q) (seed x : str) : bool :=
  Qle_bool threshold (calculate_similarity seed x).

(** The inner loop of [smart_text_grouping]: the texts after the seed, [j]
    being the index of the first of them. *)
Fixpoint scan_similar (threshold : Q) (text : str) (j : nat)
    (others : list str) (current_group : list str) (processed : gset nat)
  : list str * gset nat :=
  match others with
  | [] => (current_group, processed)
  | other_text :: others' =>
      if bool_decide (j ∈ processed)
      then scan_similar threshold text (S j) others' current_group processed
      else
        let similarity := calculate_similarity text other_text in
        if Qle_bool threshold similarity then
          let current_group := current_group ++ [other_text] in
          let processed := {[ j ]} ∪ processed in
          if (10 <=? length current_group)%nat
          then (current_group, processed)
          else scan_similar threshold text (S j) others' current_group
                 processed
        else scan_similar threshold text (S j) others' current_group processed
  end.

(** The outer loop, [i] being the index of the first text of [texts]. *)
Fixpoint group_from (threshold : Q) (i : nat) (texts : list str)
    (processed : gset nat) : list (list str) :=
  match texts with
  | [] => []
  | text :: texts' =>
      if bool_decide (i ∈ processed)
      then group_from threshold (S i) texts' processed
      else
        let '(current_group, processed) :=
          scan_similar threshold text (S i) texts' [text]
            ({[ i ]} ∪ processed) in
        current_group :: group_from threshold (S i) texts' processed
  end.

(** [smart_text_grouping] *)
Definition smart_text_grouping (texts : list str) (similarity_threshold : Q)
  : list (list str) :=
  group_from similarity_threshold 0 texts ∅.

End Utils.

(** ** file_handler.py *)

(** One extracted pair: the dictionary built by the extractor. *)
Record TranslationItem := {
  line_number : Z;
  key : str;
  original_value : str;
  translated_value : str;
  is_translated : bool;
  original_line : str;
  needs_translation : bool;
  pattern_used : nat;
  translation_type : str
}.

Inductive Encoding := utf_8 | utf_8_sig | windows_1256 | iso_8859_1 | cp1252.

(** The fields of a [PHPFileHandler]. *)
Record PHPFileHandler := {
  file_path : option str;
  original_content : str;
  translations : list TranslationItem;
  modified : bool;
  encoding : Encoding
}.

Definition quote1 : Z := 39.
Definition quote2 : Z := 34.
Definition backslash : Z := 92.

(** The pattern [q(...{klo,khi})q\s*=>\s*v(...{0,vhi})v] of a quoted key and a
    quoted value, with the key in group 1 and the value in group 2. *)
Definition pair_pattern (kq vq : Z) (klo : nat) (khi vhi : option nat)
  : regex :=
  [Lit [kq]; Open 1; Chars (not_char kq) klo khi; Close 1; Lit [kq];
   star is_space; Lit (u "=>"); star is_space;
   Lit [vq]; Open 2; Chars (not_char vq) 0 vhi; Close 2; Lit [vq]].

(** The patterns of [_extract_translations_standard]. *)
Definition standard_patterns : list regex :=
  [pair_pattern quote1 quote1 1 None None;
   pair_pattern quote2 quote2 1 None None;
   pair_pattern quote1 quote2 1 None None;
   pair_pattern quote2 quote1 1 None None].

(** The patterns of [_extract_translations_optimized]. *)
Definition optimized_patterns : list regex :=
  [pair_pattern quote1 quote1 2 (Some 100%nat) (Some 200%nat);
   pair_pattern quote2 quote2 2 (Some 100%nat) (Some 200%nat);
   pair_pattern quote1 quote2 2 (Some 100%nat) (Some 200%nat);
   pair_pattern quote2 quote1 2 (Some 100%nat) (Some 200%nat)].

(** The characters of the class
    [[\{\}\[\]<>/\\$#@%^&*()+=|~`]]. *)
Definition code_symbol (c : Z) : bool :=
  existsb (Z.eqb c)
    [123; 125; 91; 93; 60; 62; 47; 92; 36; 35; 64; 37; 94; 38; 42; 40; 41;
     43; 61; 124; 126; 96].

Section FileHandler.
Context {ud : UnicodeData}.

(** [_clean_extracted_text] *)
Definition clean_extracted_text (text : str) : str :=
  match text with
  | [] => []
  | _ :: _ =>
      let text := strip text in
      let text :=
        replace [backslash; quote1] [quote1]
          (replace [backslash; quote2] [quote2]
             (replace (u "\t") [9]
                (replace (u "\n") [10] text))) in
      re_delete [Lit [backslash]; one ascii_letter] text
  end.

(** [_is_valid_translation_pair].  The source text of this method is split
    in two by a stretch of repeated methods: its beginning stops inside the
    symbol pattern and its end is the fragment [, value): return False;
    return True]. *)
Definition is_valid_translation_pair (key value : str) : bool :=
  if bool_decide (key = []) || bool_decide (value = []) then false
  else if (100 <? len key) || (500 <? len value) then false
  else if matched (re_match [Bol; plus code_symbol; Eol] value) then false
  else true.

Definition programming_patterns : list regex :=
  [ [Bol; Lit (u "$"); plus is_word; Eol];
    [Bol; Lit (u "{{"); star dot; Lit (u "}}"); Eol];
    [Bol; plus is_word; Lit (u "()"); Eol];
    [Bol; plus (fun c => negb (is_word c || is_space c)); Eol];
    [Bol; plus is_word; Lit (u "."); plus is_word; Eol];
    [Bol; Lit (u "http"); opt (is_char 115); Lit (u "://")];
    [Bol; Lit (u "mailto:")];
    [Bol; plus is_decimal;
     star (fun c => (c =? 46) || (c =? 45) || is_space c);
     star is_decimal; Eol];
    [Bol; plus (fun c => ascii_upper c || (c =? 95)); Eol];
    [Bol; plus is_word; Lit (u "["); plus is_decimal; Lit (u "]"); Eol] ].

Definition html_tag_pattern : regex :=
  [Bol; Lit (u "<"); plus (not_char 62); Lit (u ">"); Eol].

Definition word_pattern : regex := [WordB; plus ascii_letter; WordB].
Definition symbol_pattern : regex :=
  [one (fun c => negb (is_word c || is_space c))].

(** [_needs_translation] *)
Definition needs_translation_of (text : str) : bool :=
  match text with
  | [] => false
  | _ :: _ =>
      let text := strip text in
      if len text <? 2 then false
      else if isdigit text then false
      else if existsb (fun pattern => matched (re_match pattern text))
                programming_patterns then false
      else if matched (re_match html_tag_pattern text) then false
      else if has_arabic_content text then false
      else
        let word_count := count_matches word_pattern text in
        let symbol_count := count_matches symbol_pattern text in
        if (word_count <? symbol_count)%nat && (word_count <? 3)%nat
        then false
        else matched (re_search [one ascii_letter] text)
             && (0 <? word_count)%nat
  end.

(** The exclusion rules of [_needs_translation], on the stripped text: too
    short, digits only, one of the programming patterns, a lone HTML tag,
    already of the target script, or more symbols than words with fewer than
    three words. *)
Definition excluded (text : str) : bool :=
  (len text <? 2) || isdigit text ||
  existsb (fun pattern => matched (re_match pattern text))
    programming_patterns ||
  matched (re_match html_tag_pattern text) ||
  has_arabic_content text ||
  ((count_matches word_pattern text <? count_matches symbol_pattern text)%nat
   && (count_matches word_pattern text <? 3)%nat).

(** The dictionary built for one match of pattern [pattern_index] on a line;
    [raw] is the line as stored with the item. *)
Definition translation_item (line_no : Z) (raw : str) (pattern_index : nat)
    (m : rmatch) : option TranslationItem :=
  let key := clean_extracted_text (group m 1) in
  let value := clean_extracted_text (group m 2) in
  if is_valid_translation_pair key value
  then Some {| line_number := line_no;
               key := key;
               original_value := value;
               translated_value := value;
               is_translated := has_arabic_content value;
               original_line := raw;
               needs_translation := needs_translation_of value;
               pattern_used := pattern_index;
               translation_type := u "none" |}
  else None.

Fixpoint match_patterns (line_no : Z) (raw line : str) (pattern_index : nat)
    (patterns : list regex) : list TranslationItem :=
  match patterns with
  | [] => []
  | pattern :: patterns' =>
      omap (translation_item line_no raw pattern_index)
        (re_finditer pattern line) ++
      match_patterns line_no raw line (S pattern_index) patterns'
  end.

(** Blank lines and comment lines are passed over. *)
Definition skipped_line (line : str) : bool :=
  let line_stripped := strip line in
  bool_decide (line_stripped = []) ||
  existsb (startswith line_stripped) [u "//"; u "/*"; u "*"; u "#"].

(** The body of the line loop of [_extract_translations_standard]. *)
Definition standard_line (line_no : Z) (line : str) : list TranslationItem :=
  if skipped_line line then []
  else match_patterns line_no (strip line) line 0 standard_patterns.

Fixpoint standard_lines (line_no : Z) (lines : list str)
  : list TranslationItem :=
  match lines with
  | [] => []
  | line :: lines' =>
      standard_line line_no line ++ standard_lines (line_no + 1) lines'
  end.

(** [_extract_translations_standard] *)
Definition extract_translations_standard (content : str)
  : list TranslationItem :=
  standard_lines 1 (split_on LF content).

(** The body of the line loop of [_process_lines_chunk]. *)
Definition chunk_line (line_no : Z) (line : str) (patterns : list regex)
  : list TranslationItem :=
  if skipped_line line then []
  else if 1000 <? len line then []
  else match_patterns line_no (firstn 500 (strip line)) line 0 patterns.

(** [_process_lines_chunk] *)
Fixpoint process_lines_chunk (lines : list str) (start_line_number : Z)
    (patterns : list regex) : list TranslationItem :=
  match lines with
  | [] => []
  | line :: lines' =>
      chunk_line (start_line_number + 1) line patterns ++
      process_lines_chunk lines' (start_line_number + 1) patterns
  end.

(** [_deduplicate_translations] *)
Definition unique_key (item : TranslationItem) : str * str :=
  (lower (key item), lower (original_value item)).

Fixpoint deduplicate_from (seen_keys : gset (str * str))
    (translations : list TranslationItem) : list TranslationItem :=
  match translations with
  | [] => []
  | item :: rest_items =>
      if bool_decide (unique_key item ∈ seen_keys)
      then deduplicate_from seen_keys rest_items
      else item :: deduplicate_from ({[ unique_key item ]} ∪ seen_keys)
                     rest_items
  end.

Definition deduplicate_translations (translations : list TranslationItem)
  : list TranslationItem :=
  deduplicate_from ∅ translations.

Definition chunk_size : nat := Z.to_nat 10000.

(** The chunk loop of [_extract_translations_optimized]: [lines] are the
    lines from [chunk_start] on; every round takes at least one line, so
    [fuel] rounds suffice for [fuel] lines. *)
Fixpoint process_chunks (fuel : nat) (chunk_start : Z) (lines : list str)
  : list TranslationItem :=
  match fuel with
  | O => []
  | S fuel' =>
      match lines with
      | [] => []
      | _ :: _ =>
          process_lines_chunk (firstn chunk_size lines) chunk_start
            optimized_patterns ++
          process_chunks fuel' (chunk_start + Z.of_nat chunk_size)
            (skipn chunk_size lines)
      end
  end.

(** [_extract_translations_optimized] *)
Definition extract_translations_optimized (content : str)
  : list TranslationItem :=
  let lines := split_on LF content in
  deduplicate_translations (process_chunks (length lines) 0 lines).

(** [_extract_translations] *)
Definition extract_translations (content : str) : list TranslationItem :=
  if 100000 <? len content
  then extract_translations_optimized content
  else extract_translations_standard content.

End FileHandler.

Section Rewriter.
Context {ud : UnicodeData}.

(** [update_translation]: the handler afterwards and the value returned. *)
Definition set_translation (translated_text translation_type : str)
    (item : TranslationItem) : TranslationItem :=
  {| line_number := line_number item;
     key := key item;
     original_value := original_value item;
     translated_value := translated_text;
     is_translated := has_arabic_content translated_text;
     original_line := original_line item;
     needs_translation := needs_translation item;
     pattern_used := pattern_used item;
     translation_type := translation_type |}.

Definition update_translation (h : PHPFileHandler) (index : Z)
    (translated_text translation_type : str) : PHPFileHandler * bool :=
  if (0 <=? index) && (index <? len (translations h))
  then ({| file_path := file_path h;
           original_content := original_content h;
           translations :=
             alter (set_translation translated_text translation_type)
               (Z.to_nat index) (translations h);
           modified := true;
           encoding := encoding h |}, true)
  else (h, false).

(** The five (pattern, replacement) pairs of [_update_line_translation]; the
    escaped original value is a literal of the pattern. *)
Definition anchored_pattern (kq vq : Z) (original_value : str) : regex :=
  [Open 1; Lit [kq]; Lit original_value; Lit [kq];
   star is_space; Lit (u "=>"); star is_space; Lit [vq]; Close 1;
   Open 2; star (not_char vq); Close 2; Lit [vq]].

Definition replacement_patterns (original_value new_value_safe : str)
  : list (regex * str) :=
  [ (anchored_pattern quote1 quote1 original_value,
     u "\1" ++ new_value_safe ++ [quote1]);
    (anchored_pattern quote2 quote2 original_value,
     u "\1" ++ new_value_safe ++ [quote2]);
    (anchored_pattern quote1 quote2 original_value,
     u "\1" ++ new_value_safe ++ [quote2]);
    (anchored_pattern quote2 quote1 original_value,
     u "\1" ++ new_value_safe ++ [quote1]);
    ([WordB; Lit original_value; WordB], new_value_safe) ].

(** The replacement loop: [None] when [re.sub] raises, [Some None] when no
    pattern changed the line. *)
Fixpoint try_replacements (pairs : list (regex * str)) (line : str)
  : option (option str) :=
  match pairs with
  | [] => Some None
  | (pattern, replacement) :: pairs' =>
      if matched (re_search pattern line) then
        match re_sub pattern replacement line with
        | Some updated_line =>
            if bool_decide (updated_line ≠ line) then Some (Some updated_line)
            else try_replacements pairs' line
        | None => None
        end
      else try_replacements pairs' line
  end.

(** [_update_line_translation]; [None] when it raises. *)
Definition update_line_translation (line original_value new_value : str)
    (pattern_used : nat) : option str :=
  let new_value_safe :=
    replace [quote2] [backslash; quote2]
      (replace [quote1] [backslash; quote1] new_value) in
  match try_replacements
          (replacement_patterns original_value new_value_safe) line with
  | None => None
  | Some (Some updated_line) => Some updated_line
  | Some None =>
      if contains line original_value
      then Some (replace original_value new_value_safe line)
      else Some line
  end.

(** [sorted(items, key=line_number, reverse=True)]: the sort is stable, also
    when reversed. *)
Fixpoint insert_desc (x : TranslationItem) (l : list TranslationItem)
  : list TranslationItem :=
  match l with
  | [] => [x]
  | y :: l' =>
      if line_number x <? line_number y then y :: insert_desc x l'
      else x :: l
  end.

Definition sorted_desc (l : list TranslationItem) : list TranslationItem :=
  foldr insert_desc [] l.

(** The guard of the rewriting loop. *)
Definition rewritable (translation : TranslationItem) : bool :=
  is_translated translation &&
  has_arabic_content (translated_value translation) &&
  bool_decide (translated_value translation ≠ original_value translation).

(** An item for which rebuilding has nothing to do on the lines [lines]: it
    is not rewritable, or it addresses no line, or its original value does
    not occur on the line it addresses. *)
Definition settled (lines : list str) (t : TranslationItem) : bool :=
  negb (rewritable t) ||
  negb ((0 <=? line_number t - 1) && (line_number t - 1 <? len lines)) ||
  match lines !! Z.to_nat (line_number t - 1) with
  | Some line => negb (contains line (original_value t))
  | None => true
  end.

(** What [_update_line_translation] writes for one character of the new
    value: a quote gets a backslash before it. *)
Definition escape_quote (c : Z) : str :=
  if c =? quote1 then [backslash; quote1]
  else if c =? quote2 then [backslash; quote2]
  else [c].

(** A new value that the replacement templates take literally: no
    backslash in it and no digit at its beginning. *)
Definition plain_value (new_value : str) : Prop :=
  Forall (fun c => c <> backslash) new_value /\
  match new_value with
  | d :: _ => ascii_digit d = false
  | [] => True
  end.

(** A text within one line. *)
Definition one_line (s : str) : Prop := Forall (fun c => c <> LF) s.

(** The literal characters of a parsed template all satisfy [P]. *)
Definition tpl_within (P : Z -> Prop) (tpl : list tpl_item) : Prop :=
  Forall (fun i => match i with TChar c => P c | TGroup _ => True end) tpl.

(** The characters of a matching state all satisfy [P]. *)
Definition state_within (P : Z -> Prop) (st : mstate) : Prop :=
  Forall P (seen st) /\ Forall P (rest st) /\
  Forall (fun gc => Forall P gc.2) (caps st).

(** The characters of a match object all satisfy [P]. *)
Definition match_within (P : Z -> Prop) (m : rmatch) : Prop :=
  Forall P (m_text m) /\ Forall (fun gc => Forall P gc.2) (m_groups m).

(** The loop of [_build_new_content] over the sorted items. *)
Fixpoint rewrite_lines (sorted_translations : list TranslationItem)
    (lines : list str) : option (list str) :=
  match sorted_translations with
  | [] => Some lines
  | translation :: others =>
      if rewritable translation then
        let line_index := line_number translation - 1 in
        if (0 <=? line_index) && (line_index <? len lines) then
          match lines !! Z.to_nat line_index with
          | Some original_line =>
              match update_line_translation original_line
                      (original_value translation)
                      (translated_value translation)
                      (pattern_used translation) with
              | Some updated_line =>
                  if bool_decide (updated_line ≠ original_line)
                  then rewrite_lines others
                         (<[Z.to_nat line_index := updated_line]> lines)
                  else rewrite_lines others lines
              | None => None
              end
          | None => rewrite_lines others lines
          end
        else rewrite_lines others lines
      else rewrite_lines others lines
  end.

(** [_build_new_content] on the content and the items of a handler; [None]
    when it raises. *)
Definition build_new_content (content : str)
    (items : list TranslationItem) : option str :=
  match rewrite_lines (sorted_desc items) (split_on LF content) with
  | Some lines => Some (join_on LF lines)
  | None => None
  end.

End Rewriter.

(** ** Loading a file *)

Inductive ExcClass := FileNotFoundError | ValueError | OSError | Exception.

(** A raised exception: its class and its message; one raised while another
    was being handled keeps that one as its context. *)
Inductive Exc :=
| Raise (cls : ExcClass) (msg : str)
| RaiseIn (context : Exc) (cls : ExcClass) (msg : str).

Definition exc_class (e : Exc) : ExcClass :=
  match e with Raise c _ | RaiseIn _ c _ => c end.
Definition exc_msg (e : Exc) : str :=
  match e with Raise _ m | RaiseIn _ _ m => m end.
Definition exc_context (e : Exc) : option Exc :=
  match e with Raise _ _ => None | RaiseIn e' _ _ => Some e' end.

(** What opening and reading a file with an encoding does. *)
Inductive ReadResult :=
| ReadOk (text : str)
| UnicodeDecodeError
| ReadFails (msg : str).

(** The files the program sees: whether a path exists, the last suffix of
    its name, and what reading it gives. *)
Record FileSystem := {
  path_exists : str -> bool;
  path_suffix : str -> str;
  read_text : str -> Encoding -> ReadResult
}.

Definition encodings : list Encoding :=
  [utf_8; utf_8_sig; windows_1256; iso_8859_1; cp1252].

(** "الملف غير موجود: " *)
Definition msg_not_found : str :=
  [1575; 1604; 1605; 1604; 1601; 32; 1594; 1610; 1585; 32; 1605; 1608; 1580;
   1608; 1583; 58; 32].
(** "يجب أن يكون الملف من نوع PHP (.php)" *)
Definition msg_not_php : str :=
  [1610; 1580; 1576; 32; 1571; 1606; 32; 1610; 1603; 1608; 1606; 32; 1575;
   1604; 1605; 1604; 1601; 32; 1605; 1606; 32; 1606; 1608; 1593; 32; 80; 72;
   80; 32; 40; 46; 112; 104; 112; 41].
(** "لا يمكن قراءة الملف. تأكد من الترميز." *)
Definition msg_encoding : str :=
  [1604; 1575; 32; 1610; 1605; 1603; 1606; 32; 1602; 1585; 1575; 1569; 1577;
   32; 1575; 1604; 1605; 1604; 1601; 46; 32; 1578; 1571; 1603; 1583; 32; 1605;
   1606; 32; 1575; 1604; 1578; 1585; 1605; 1610; 1586; 46].
(** "خطأ في تحميل الملف: " *)
Definition msg_load_error : str :=
  [1582; 1591; 1571; 32; 1601; 1610; 32; 1578; 1581; 1605; 1610; 1604; 32;
   1575; 1604; 1605; 1604; 1601; 58; 32].

Section Loading.
Context {ud : UnicodeData}.
Variable fs : FileSystem.

(** The [for ... else] over the candidate encodings. *)
Fixpoint read_first (path : str) (candidates : list Encoding)
  : Exc + (str * Encoding) :=
  match candidates with
  | [] => inl (Raise ValueError msg_encoding)
  | enc :: candidates' =>
      match read_text fs path enc with
      | ReadOk text => inr (text, enc)
      | UnicodeDecodeError => read_first path candidates'
      | ReadFails msg => inl (Raise OSError msg)
      end
  end.

(** The body of the [try] of [load_file]. *)
Definition load_file_body (file_path : str) : Exc + PHPFileHandler :=
  if negb (path_exists fs file_path)
  then inl (Raise FileNotFoundError (msg_not_found ++ file_path))
  else if bool_decide (lower (path_suffix fs file_path) ≠ u ".php")
  then inl (Raise ValueError msg_not_php)
  else
    match read_first file_path encodings with
    | inl e => inl e
    | inr (content, enc) =>
        inr {| file_path := Some file_path;
               original_content := content;
               translations := extract_translations content;
               modified := false;
               encoding := enc |}
    end.

(** The exception raised by the handler of [load_file] for [e]. *)
Definition wrap (e : Exc) : Exc :=
  RaiseIn e Exception (msg_load_error ++ exc_msg e).

(** [load_file]: whatever is raised is raised again as an [Exception]. *)
Definition load_file (file_path : str) : Exc + PHPFileHandler :=
  match load_file_body file_path with
  | inl e => inl (wrap e)
  | inr h => inr h
  end.

(** [load_file] fails with the exception [c] wrapped in an [Exception]. *)
Definition fails_wrapping (path : str) (c : Exc) : Prop :=
  load_file path = inl (wrap c).

End Loading.

(** ** The Unicode data of the examples

    The Arabic block U+0600 to U+06FF as the Unicode database has it; the
    examples below use ASCII and Arabic letters only. *)
#[global] Instance arabic_ud : UnicodeData := {|
  uc_alnum c :=
    in_range 0x620 0x64A c || in_range 0x660 0x669 c ||
    in_range 0x66E 0x66F c || in_range 0x671 0x6D3 c || (c =? 0x6D5) ||
    in_range 0x6E5 0x6E6 c || in_range 0x6EE 0x6FC c || (c =? 0x6FF);
  uc_decimal c := in_range 0x660 0x669 c || in_range 0x6F0 0x6F9 c;
  uc_digit c := in_range 0x660 0x669 c || in_range 0x6F0 0x6F9 c;
  uc_lower s := List.map (fun c => if ascii_upper c then c + 32 else c) s;
  uc_group_index name :=
    if forallb ascii_digit name
    then Some (Z.to_nat (fold_left (fun n c => 10 * n + (c - 48)) name 0))
    else None
|}.

(** ** More of utils.py and file_handler.py *)

(** "غير مترجم", "لا يحتاج ترجمة" and "مترجم" *)
Definition st_untranslated : str :=
  [1594; 1610; 1585; 32; 1605; 1578; 1585; 1580; 1605].
Definition st_not_needed : str :=
  [1604; 1575; 32; 1610; 1581; 1578; 1575; 1580; 32; 1578; 1585; 1580; 1605;
   1577].
Definition st_translated : str := [1605; 1578; 1585; 1580; 1605].

(** The characters [sanitize_filename] replaces: the angle brackets, the
    colon, the double quote, both slashes, the bar, the question mark and the
    star. *)
Definition forbidden_in_filename (c : Z) : bool :=
  existsb (Z.eqb c) [60; 62; 58; 34; 47; 92; 124; 63; 42].

Record Duplicate := {
  dup_text : str;
  dup_lines : list Z;
  dup_keys : list str
}.

Record Issue := {
  issue_type : str;
  issue_line : Z;
  issue_message : str
}.

(** "ترجمة فارغة", "لم تتغير عن النص الأصلي" and "عدم تطابق في HTML tags" *)
Definition msg_empty : str :=
  [1578; 1585; 1580; 1605; 1577; 32; 1601; 1575; 1585; 1594; 1577].
Definition msg_unchanged : str :=
  [1604; 1605; 32; 1578; 1578; 1594; 1610; 1585; 32; 1593; 1606; 32; 1575;
   1604; 1606; 1589; 32; 1575; 1604; 1571; 1589; 1604; 1610].
Definition msg_html : str :=
  [1593; 1583; 1605; 32; 1578; 1591; 1575; 1576; 1602; 32; 1601; 1610; 32; 72;
   84; 77; 76; 32; 116; 97; 103; 115].

Record Statistics := {
  total_items : Z;
  stat_needs_translation : Z;
  stat_translated : Z;
  remaining : Z;
  progress_percentage : Z;
  auto_translated : Z;
  manual_translated : Z;
  has_arabic_originally : Z
}.

Section MoreUtils.
Context {ud : UnicodeData}.

(** [re.sub(r, literal, s)] for a replacement without a backslash, which
    [re] uses as it is. *)
Definition re_sub_literal (r : regex) (literal : str) (s : str) : str :=
  assemble (List.map TChar literal) s 0 (re_finditer r s).

(** [re.findall(r, s)] for a pattern without a group. *)
Definition re_findall (r : regex) (s : str) : list str :=
  List.map m_text (re_finditer r s).

(** [is_arabic_text] *)
Definition is_arabic_text (text : str) : bool :=
  match text with
  | [] => false
  | _ :: _ => matched (re_search [plus is_arabic] text)
  end.


(** [determine_translation_status] *)
Definition determine_translation_status (original_text translated_text : str)
  : str :=
  if bool_decide (translated_text = []) ||
     bool_decide (strip translated_text = [])
  then st_untranslated
  else if bool_decide (strip original_text = strip translated_text)
  then (if has_arabic_content original_text then st_not_needed
        else st_untranslated)
  else if has_arabic_content translated_text then st_translated
  else st_untranslated.

(** [count_words] *)
Definition count_words (text : str) : nat :=
  match text with
  | [] => O
  | _ :: _ => count_matches [WordB; plus is_word; WordB] text
  end.

(** [sanitize_filename] *)
Definition sanitize_filename (filename : str) : str :=
  re_sub_literal [one forbidden_in_filename] (u "_") filename.

End MoreUtils.

Section Store.
Context {ud : UnicodeData}.
(** [int((a / b) * 100)] as the interpreter's floating-point arithmetic
    gives it. *)
Variable int_percent : nat -> nat -> Z.

Definition count_items (p : TranslationItem -> bool)
    (items : list TranslationItem) : nat :=
  length (List.filter p items).

(** [get_untranslated_items] *)
Definition get_untranslated_items (h : PHPFileHandler)
  : list TranslationItem :=
  List.filter
    (fun item => needs_translation item &&
                 negb (has_arabic_content (translated_value item)))
    (translations h).

(** [get_translation_progress] *)
Definition get_translation_progress (h : PHPFileHandler) : Z :=
  let total := count_items needs_translation (translations h) in
  let translated_items :=
    count_items (fun item => needs_translation item &&
                             has_arabic_content (translated_value item))
      (translations h) in
  if (total =? 0)%nat then 100 else int_percent translated_items total.

(** [get_statistics] *)
Definition get_statistics (h : PHPFileHandler) : Statistics :=
  let total := len (translations h) in
  let needs := len (List.filter needs_translation (translations h)) in
  let translated :=
    len (List.filter
           (fun item => needs_translation item &&
                        has_arabic_content (translated_value item))
           (translations h)) in
  let auto :=
    len (List.filter
           (fun item => bool_decide (translation_type item = u "auto") &&
                        has_arabic_content (translated_value item))
           (translations h)) in
  let manual_ :=
    len (List.filter
           (fun item => bool_decide (translation_type item = u "manual") &&
                        has_arabic_content (translated_value item))
           (translations h)) in
  {| total_items := total;
     stat_needs_translation := needs;
     stat_translated := translated;
     remaining := needs - translated;
     progress_percentage := get_translation_progress h;
     auto_translated := auto;
     manual_translated := manual_;
     has_arabic_originally :=
       len (List.filter (fun item => has_arabic_content (original_value item))
              (translations h)) |}.

(** [get_translation_by_status] *)
Definition get_translation_by_status (h : PHPFileHandler)
    (status_filter : str) : list TranslationItem :=
  List.filter
    (fun item =>
       bool_decide (status_filter = u "all") ||
       bool_decide
         (determine_translation_status (original_value item)
            (translated_value item) = status_filter))
    (translations h).

(** The form under which [find_duplicates] compares original values. *)
Definition normal_original (item : TranslationItem) : str :=
  strip (lower (original_value item)).

(** The issue [validate_translations] raises for an unchanged value. *)
Definition unchanged_issue (item : TranslationItem) : Issue :=
  {| issue_type := u "unchanged_translation";
     issue_line := line_number item;
     issue_message := msg_unchanged |}.

(** [find_duplicates] *)
Fixpoint find_duplicates_from (seen_items : gmap str TranslationItem)
    (items : list TranslationItem) : list Duplicate :=
  match items with
  | [] => []
  | item :: items' =>
      let original := strip (lower (original_value item)) in
      match seen_items !! original with
      | Some first =>
          {| dup_text := original;
             dup_lines := [line_number first; line_number item];
             dup_keys := [key first; key item] |}
          :: find_duplicates_from seen_items items'
      | None => find_duplicates_from (<[original := item]> seen_items) items'
      end
  end.

Definition find_duplicates (h : PHPFileHandler) : list Duplicate :=
  find_duplicates_from ∅ (translations h).

Definition html_tags (s : str) : list str :=
  re_findall [Lit (u "<"); plus (not_char 62); Lit (u ">")] s.

(** The body of the loop of [validate_translations]. *)
Definition validate_item (item : TranslationItem) : list Issue :=
  let original := original_value item in
  let translated := translated_value item in
  (if needs_translation item && bool_decide (strip translated = [])
   then [ {| issue_type := u "empty_translation";
             issue_line := line_number item;
             issue_message := msg_empty |} ]
   else []) ++
  (if needs_translation item &&
      bool_decide (lower (strip original) = lower (strip translated)) &&
      negb (has_arabic_content translated)
   then [ {| issue_type := u "unchanged_translation";
             issue_line := line_number item;
             issue_message := msg_unchanged |} ]
   else []) ++
  (if bool_decide (html_tags original ≠ html_tags translated)
   then [ {| issue_type := u "html_mismatch";
             issue_line := line_number item;
             issue_message := msg_html |} ]
   else []).

(** [validate_translations] *)
Definition validate_translations (h : PHPFileHandler) : list Issue :=
  flat_map validate_item (translations h).

End Store.

(** The matches of a one-character class, written out: one at every
    character of the class, [pos] being the position of the first character
    of the text. *)
Fixpoint hits (p : cset) (pos : nat) (rs : str) : list rmatch :=
  match rs with
  | [] => []
  | c :: rs' =>
      if p c then RMatch pos (S pos) [c] [] :: hits p (S pos) rs'
      else hits p (S pos) rs'
  end.

(** The characters that count as Arabic in [has_arabic_content]: those of
    the three Arabic ranges that are word characters and not decimal
    digits. *)
Definition arabic_letter {ud : UnicodeData} (c : Z) : bool :=
  is_arabic c && is_word c && negb (is_decimal c).

Definition count_of (p : Z -> bool) (s : str) : nat :=
  length (List.filter p s).

(** ** Example inputs *)

(** "مرحبا" and "بك" *)
Definition marhaba : str := [1605; 1585; 1581; 1576; 1575].
Definition bik : str := [1576; 1603].

(** The handler once a content has been read and its items extracted. *)
Definition loaded {ud : UnicodeData} (content : str) : PHPFileHandler :=
  {| file_path := None;
     original_content := content;
     translations := extract_translations content;
     modified := false;
     encoding := utf_8 |}.

Definition manual : str := u "manual".

Definition hello_source : str := u "'k' => 'hello'".
Definition hello_two_lines : str := marhaba ++ [LF] ++ bik.

Definition ok_source : str := u "'k' => 'ok'".
Definition ok_translation : str := u "ok " ++ marhaba.
Definition ok_once : str := u "'k' => 'ok " ++ marhaba ++ u "'".
Definition ok_twice : str :=
  u "'k' => 'ok " ++ marhaba ++ u " " ++ marhaba ++ u "'".

(** A file system with no file at all, and a text file that is there. *)
Definition no_files : FileSystem :=
  {| path_exists _ := false;
     path_suffix _ := u ".txt";
     read_text _ _ := ReadFails [] |}.

Definition notes_txt : str := u "notes.txt".

(** The fields of an item that no operation is to change. *)
Definition frozen (t : TranslationItem) : Z * str * str * bool * nat :=
  (line_number t, key t, original_value t, needs_translation t,
   pattern_used t).

(** The states a handler goes through once [source] has been extracted:
    any sequence of [update_translation] calls. *)
Inductive reachable {ud : UnicodeData} (source : str)
  : PHPFileHandler -> Prop :=
| reach_extracted h :
    original_content h = source ->
    translations h = extract_translations source ->
    reachable source h
| reach_updated h index translated_text translation_type :
    reachable source h ->
    reachable source
      (update_translation h index translated_text translation_type).1.

(** The texts of [texts] not yet claimed by a group, [i] being the index of
    the first of them. *)
Fixpoint unclaimed (i : nat) (texts : list str) (processed : gset nat)
  : list str :=
  match texts with
  | [] => []
  | text :: texts' =>
      if bool_decide (i ∈ processed) then unclaimed (S i) texts' processed
      else text :: unclaimed (S i) texts' processed
  end.

Definition greeting_texts : list str :=
  [u "hello world"; u "hello world test"; u "totally unrelated phrase"].

Definition greeting_source : str := u "'greeting' => 'hello world',".
Definition greeting_once : str :=
  u "'greeting' => '" ++ marhaba ++ u "',".

(** A source of 8,000 lines and 112,000 characters. *)
Definition big_source : str :=
  flat_map (fun _ => u "'ab' => 'cd'," ++ [LF]) (seq 0 (Z.to_nat 8000)).

Definition empty_cache : TranslationCache :=
  {| cache := ∅; cache_file := ∅ |}.

(** The item of [greeting_source] once its value is translated. *)
Definition greeting_item {ud : UnicodeData} : TranslationItem :=
  set_translation marhaba manual
    {| line_number := 1;
       key := u "greeting";
       original_value := u "hello world";
       translated_value := u "hello world";
       is_translated := false;
       original_line := greeting_source;
       needs_translation := true;
       pattern_used := 0;
       translation_type := u "none" |}.

(** A two-line source and the item of its second line, translated. *)
Definition two_line_source : str := u "<?php" ++ [LF] ++ greeting_source.

Definition second_line_item {ud : UnicodeData} : TranslationItem :=
  set_translation marhaba manual
    {| line_number := 2;
       key := u "greeting";
       original_value := u "hello world";
       translated_value := u "hello world";
       is_translated := false;
       original_line := greeting_source;
       needs_translation := true;
       pattern_used := 0;
       translation_type := u "none" |}.

(** A line whose key is its value, and translations that begin with
    digits. *)
Definition five_items_line : str := u "'5 items' => '5 items',".
Definition five_items : str := u "5 items".
Definition five_anasir : str := u "5 " ++ [1593; 1606; 1575; 1589; 1585].
Definition ten_items_line : str := u "'10 items' => '10 items',".
Definition ten_items : str := u "10 items".
Definition ten_anasir : str := u "10 " ++ [1593; 1606; 1575; 1589; 1585].

(** The item extracted from [greeting_source]. *)
Definition greeting_fresh {ud : UnicodeData} : TranslationItem :=
  {| line_number := 1;
     key := u "greeting";
     original_value := u "hello world";
     translated_value := u "hello world";
     is_translated := false;
     original_line := greeting_source;
     needs_translation := true;
     pattern_used := 0;
     translation_type := u "none" |}.

(** A file system with one file, which the third candidate encoding
    reads. *)
Definition lang_php : str := u "lang.php".

Definition one_file : FileSystem :=
  {| path_exists p := bool_decide (p = lang_php);
     path_suffix _ := u ".PHP";
     read_text _ enc :=
       match enc with
       | utf_8 | utf_8_sig => UnicodeDecodeError
       | _ => ReadOk greeting_source
       end |}.

Definition no_items : PHPFileHandler :=
  {| file_path := None;
     original_content := [];
     translations := [];
     modified := false;
     encoding := utf_8 |}.

(** * Properties *)

(** ** Lines *)

Lemma split_on_nonempty sep s : split_on sep s ≠ [].
Proof.
  destruct s as [|c s]; simpl; [discriminate|].
  destruct (c =? sep); [discriminate|].
  destruct (split_on sep s); discriminate.
Qed.

Lemma join_split sep s : join_on sep (split_on sep s) = s.
Proof.
  induction s as [|c s IH]; simpl; [reflexivity|].
  destruct (Z.eqb_spec c sep) as [->|Hne].
  - pose proof (split_on_nonempty sep s) as Hn.
    destruct (split_on sep s) as [|l ls]; [congruence|].
    simpl. f_equal. exact IH.
  - pose proof (split_on_nonempty sep s) as Hn.
    destruct (split_on sep s) as [|l ls]; [congruence|].
    destruct ls as [|l' ls]; simpl in *; f_equal; exact IH.
Qed.

(** ** What every extracted item satisfies *)

Section Extracted.
Context {ud : UnicodeData}.
Variable P : TranslationItem -> Prop.
Hypothesis P_item :
  forall line_no raw i m t, translation_item line_no raw i m = Some t -> P t.

Lemma omap_item_Forall line_no raw i ms :
  Forall P (omap (translation_item line_no raw i) ms).
Proof.
  induction ms as [|m ms IH]; simpl; [constructor|].
  destruct (translation_item line_no raw i m) eqn:E; simpl; [|exact IH].
  constructor; [eapply P_item; exact E | exact IH].
Qed.

Lemma match_patterns_Forall line_no raw line i patterns :
  Forall P (match_patterns line_no raw line i patterns).
Proof.
  revert i. induction patterns as [|p ps IH]; intros i; simpl; [constructor|].
  apply Forall_app. split; [apply omap_item_Forall | apply IH].
Qed.

Lemma standard_lines_Forall line_no lines :
  Forall P (standard_lines line_no lines).
Proof.
  revert line_no. induction lines as [|l ls IH]; intros n; simpl;
    [constructor|].
  apply Forall_app. split; [|apply IH].
  unfold standard_line. destruct (skipped_line l); [constructor|].
  apply match_patterns_Forall.
Qed.

Lemma process_lines_chunk_Forall lines start patterns :
  Forall P (process_lines_chunk lines start patterns).
Proof.
  revert start. induction lines as [|l ls IH]; intros n; simpl;
    [constructor|].
  apply Forall_app. split; [|apply IH].
  unfold chunk_line. destruct (skipped_line l); [constructor|].
  destruct (1000 <? len l); [constructor|].
  apply match_patterns_Forall.
Qed.

Lemma process_chunks_Forall fuel start lines :
  Forall P (process_chunks fuel start lines).
Proof.
  revert start lines. induction fuel as [|f IH]; intros start lines; simpl;
    [constructor|].
  destruct lines as [|l ls]; [constructor|].
  apply Forall_app. split; [apply process_lines_chunk_Forall | apply IH].
Qed.

Lemma deduplicate_from_Forall seen_keys l :
  Forall P l -> Forall P (deduplicate_from seen_keys l).
Proof.
  intros H. revert seen_keys.
  induction H as [|x l Hx Hl IH]; intros sk; simpl; [constructor|].
  destruct (bool_decide (unique_key x ∈ sk)); [apply IH|].
  constructor; [exact Hx | apply IH].
Qed.

Lemma extract_translations_Forall content :
  Forall P (extract_translations content).
Proof.
  unfold extract_translations.
  destruct (100000 <? len content).
  - apply deduplicate_from_Forall, process_chunks_Forall.
  - apply standard_lines_Forall.
Qed.

End Extracted.

Section RewriterFacts.
Context {ud : UnicodeData}.

Lemma insert_desc_Forall (P : TranslationItem -> Prop) x l :
  P x -> Forall P l -> Forall P (insert_desc x l).
Proof.
  intros Hx Hl. induction Hl as [|y l Hy Hl IH]; simpl.
  - constructor; [exact Hx | constructor].
  - destruct (line_number x <? line_number y).
    + constructor; [exact Hy | exact IH].
    + constructor; [exact Hx|]. constructor; [exact Hy | exact Hl].
Qed.

Lemma sorted_desc_Forall (P : TranslationItem -> Prop) l :
  Forall P l -> Forall P (sorted_desc l).
Proof.
  intros H. induction H as [|x l Hx Hl IH]; simpl; [constructor|].
  apply insert_desc_Forall; [exact Hx | exact IH].
Qed.

Lemma rewrite_lines_idle items lines :
  Forall (fun t => rewritable t = false) items ->
  rewrite_lines items lines = Some lines.
Proof.
  intros H. induction H as [|t ts Ht Hts IH]; simpl; [reflexivity|].
  rewrite Ht. exact IH.
Qed.

Lemma unchanged_not_rewritable t :
  translated_value t = original_value t -> rewritable t = false.
Proof.
  intros E. unfold rewritable.
  rewrite (bool_decide_eq_false_2 _); [apply andb_false_r|].
  intros Hne. exact (Hne E).
Qed.

(** Rebuilding with no rewritable item gives the content back. *)
Lemma build_new_content_idle content items :
  Forall (fun t => rewritable t = false) items ->
  build_new_content content items = Some content.
Proof.
  intros H. unfold build_new_content.
  rewrite rewrite_lines_idle; [|apply sorted_desc_Forall; exact H].
  f_equal. apply join_split.
Qed.

Lemma translation_item_unchanged line_no raw i m t :
  translation_item line_no raw i m = Some t ->
  translated_value t = original_value t.
Proof.
  unfold translation_item.
  destruct (is_valid_translation_pair _ _); [|discriminate].
  intros [= <-]. reflexivity.
Qed.

(** C1. For every source text, rebuilding it with the items just extracted
    from it, each translated value still equal to the original value, gives
    the source text back, character for character. *)
Theorem rebuild_extract_roundtrip (source : str) :
  build_new_content source (extract_translations source) = Some source.
Proof.
  apply build_new_content_idle.
  apply extract_translations_Forall.
  intros line_no raw i m t E. apply unchanged_not_rewritable.
  eapply translation_item_unchanged; exact E.
Qed.

End RewriterFacts.

(** ** Rewriting: what goes wrong *)

(** C2. The claim is that rebuilding never adds or removes a line.  On the
    one-line source ['k' => 'hello'], after the value is updated to a
    translation that holds a line feed, the rebuilt text has two lines: the
    replacement is written into the line with its line feed. *)
Theorem rebuild_line_feed_adds_line :
  let h := (update_translation (loaded hello_source) 0 hello_two_lines
              manual).1 in
  build_new_content (original_content h) (translations h)
    = Some (u "'k' => '" ++ hello_two_lines ++ u "'") /\
  length (split_on LF (original_content h)) = 1%nat /\
  length (split_on LF (u "'k' => '" ++ hello_two_lines ++ u "'")) = 2%nat.
Proof. vm_compute. repeat split; reflexivity. Qed.

(** C3, as stated, fails: with the value [ok] translated to a text that
    still holds the word [ok], a second rebuild replaces that word again. *)
Lemma rebuild_twice_differs :
  let h := (update_translation (loaded ok_source) 0 ok_translation manual).1 in
  build_new_content ok_source (translations h) = Some ok_once /\
  build_new_content ok_once (translations h) = Some ok_twice /\
  ok_twice <> ok_once.
Proof. vm_compute. repeat split; try reflexivity. discriminate. Qed.

(** ** Loading *)

Section LoadingFacts.
Context {ud : UnicodeData}.
Variable fs : FileSystem.

Lemma read_first_all_fail path candidates :
  read_first fs path candidates = inl (Raise ValueError msg_encoding) <->
  Forall (fun enc => read_text fs path enc = UnicodeDecodeError) candidates.
Proof.
  induction candidates as [|enc cs IH]; simpl.
  - split; [constructor | reflexivity].
  - destruct (read_text fs path enc) eqn:E.
    + split; [discriminate|]. intros H. inversion H; subst. congruence.
    + rewrite IH. split; intros H.
      * constructor; [exact E | exact H].
      * inversion H; assumption.
    + split; [discriminate|]. intros H. inversion H; subst. congruence.
Qed.

Lemma read_first_inl path candidates e :
  read_first fs path candidates = inl e ->
  e = Raise ValueError msg_encoding \/ exists m, e = Raise OSError m.
Proof.
  induction candidates as [|enc cs IH]; simpl.
  - intros [= <-]. left. reflexivity.
  - destruct (read_text fs path enc); [discriminate|exact IH|].
    intros [= <-]. right. eauto.
Qed.

Lemma load_file_cases path :
  (path_exists fs path = false /\
   load_file fs path
     = inl (wrap (Raise FileNotFoundError (msg_not_found ++ path)))) \/
  (path_exists fs path = true /\ lower (path_suffix fs path) <> u ".php" /\
   load_file fs path = inl (wrap (Raise ValueError msg_not_php))) \/
  (path_exists fs path = true /\ lower (path_suffix fs path) = u ".php" /\
   ((exists e, read_first fs path encodings = inl e /\
               load_file fs path = inl (wrap e)) \/
    (exists h, load_file fs path = inr h /\ exists content enc,
               read_first fs path encodings = inr (content, enc)))).
Proof.
  unfold load_file, load_file_body.
  destruct (read_first fs path encodings) as [e|[content enc]] eqn:Hr;
    (destruct (path_exists fs path); cbn [negb];
      [|left; split; reflexivity]);
    right;
    (destruct (decide (lower (path_suffix fs path) = u ".php")) as [Hs|Hs];
      [ right; rewrite bool_decide_eq_false_2 by (intros Hn; exact (Hn Hs));
        split; [reflexivity|]; split; [exact Hs|]
      | left; rewrite bool_decide_eq_true_2 by exact Hs;
        split; [reflexivity|]; split; [exact Hs | reflexivity] ]).
  - left. exists e. split; reflexivity.
  - right. eexists. split; [reflexivity|]. eauto.
Qed.

Lemma wrap_inj c1 c2 : inl (B := PHPFileHandler) (wrap c1) = inl (wrap c2) -> c1 = c2.
Proof. intros [= E _]. exact E. Qed.

Lemma msg_not_php_encoding : msg_not_php <> msg_encoding.
Proof. vm_compute. discriminate. Qed.

(** C4, amended. Every failure of [load_file] is an [Exception] whose message
    is the load-error prefix followed by the message of the exception it
    wraps.  The wrapped exception names the missing path exactly when the
    path does not exist; it is the extension error exactly when the path
    exists and its lower-cased suffix is not [.php]; it is the encoding error
    exactly when the path exists, has that suffix and each of the five
    candidate encodings, tried in order, fails to decode. *)
Theorem load_file_failures (path : str) :
  (forall e, load_file fs path = inl e ->
     exc_class e = Exception /\
     exists c, exc_context e = Some c /\
               exc_msg e = msg_load_error ++ exc_msg c) /\
  (fails_wrapping fs path (Raise FileNotFoundError (msg_not_found ++ path)) <->
     path_exists fs path = false) /\
  (fails_wrapping fs path (Raise ValueError msg_not_php) <->
     path_exists fs path = true /\
     lower (path_suffix fs path) <> u ".php") /\
  (fails_wrapping fs path (Raise ValueError msg_encoding) <->
     path_exists fs path = true /\
     lower (path_suffix fs path) = u ".php" /\
     Forall (fun enc => read_text fs path enc = UnicodeDecodeError) encodings).
Proof.
  unfold fails_wrapping.
  pose proof (read_first_all_fail path encodings) as Hall.
  destruct (load_file_cases path)
    as [[Hex Hl]|[(Hex & Hs & Hl)|(Hex & Hs & [(e & Hr & Hl)|(h & Hl & c & enc & Hr)])]];
    rewrite Hl, Hex.
  - split; [intros e [= <-]; simpl; eauto|].
    split; [tauto|].
    split; (split; [intros H; apply wrap_inj in H; discriminate|]).
    + intros [? _]; discriminate.
    + intros [? _]; discriminate.
  - split; [intros e [= <-]; simpl; eauto|].
    split; [split; [intros H; apply wrap_inj in H; discriminate|discriminate]|].
    split; [tauto|].
    split; [intros H; apply wrap_inj in H|intros (_ & Hn & _); contradiction].
    apply (f_equal exc_msg) in H. destruct (msg_not_php_encoding H).
  - split; [intros e' [= <-]; simpl; eauto|].
    destruct (read_first_inl _ _ _ Hr) as [->|[m ->]].
    + split; [split; [intros H; apply wrap_inj in H; discriminate|discriminate]|].
      split.
      * split; [intros H; apply wrap_inj in H|intros (_ & Hn); contradiction].
        apply (f_equal exc_msg) in H. symmetry in H.
        destruct (msg_not_php_encoding H).
      * split; [intros _|reflexivity].
        split; [reflexivity|]. split; [exact Hs|]. apply Hall, Hr.
    + split; [split; [intros H; apply wrap_inj in H; discriminate|discriminate]|].
      split.
      * split; [intros H; apply wrap_inj in H; discriminate
               |intros (_ & Hn); contradiction].
      * split; [intros H; apply wrap_inj in H; discriminate|].
        intros (_ & _ & Hf). apply Hall in Hf. congruence.
  - split; [discriminate|].
    split; [split; discriminate|].
    split; [split; [discriminate|intros (_ & Hn); contradiction]|].
    split; [discriminate|].
    intros (_ & _ & Hf). apply Hall in Hf. congruence.
Qed.

End LoadingFacts.

(** C4, as stated, fails: for a path that does not exist and whose suffix is
    not [.php] the failure is the missing-file one, not the extension one,
    and what is raised is an [Exception]. *)
Lemma load_missing_txt :
  lower (path_suffix no_files notes_txt) <> u ".php" /\
  load_file no_files notes_txt
    = inl (RaiseIn (Raise FileNotFoundError (msg_not_found ++ notes_txt))
             Exception
             (msg_load_error ++ msg_not_found ++ notes_txt)) /\
  ~ fails_wrapping no_files notes_txt (Raise ValueError msg_not_php).
Proof.
  split; [vm_compute; discriminate|].
  split; [reflexivity|]. vm_compute. discriminate.
Qed.

(** ** Updating an item *)

Section UpdateFacts.
Context {ud : UnicodeData}.

Lemma update_translation_out h index text tag :
  index < 0 \/ len (translations h) <= index ->
  update_translation h index text tag = (h, false).
Proof.
  intros H. unfold update_translation.
  destruct (0 <=? index) eqn:E1; [|reflexivity].
  destruct (index <? len (translations h)) eqn:E2; [|reflexivity].
  apply Z.leb_le in E1. apply Z.ltb_lt in E2. lia.
Qed.

Lemma update_translation_in h index text tag :
  0 <= index < len (translations h) ->
  update_translation h index text tag =
    ({| file_path := file_path h;
        original_content := original_content h;
        translations :=
          alter (set_translation text tag) (Z.to_nat index) (translations h);
        modified := true;
        encoding := encoding h |}, true).
Proof.
  intros [H1 H2]. unfold update_translation.
  apply Z.leb_le in H1. apply Z.ltb_lt in H2. rewrite H1, H2. reflexivity.
Qed.

Lemma update_translation_frozen h index text tag :
  List.map frozen (translations (update_translation h index text tag).1)
  = List.map frozen (translations h).
Proof.
  unfold update_translation.
  destruct ((0 <=? index) && (index <? len (translations h)));
    [|reflexivity].
  simpl. generalize (Z.to_nat index) as n. generalize (translations h) as l.
  induction l as [|x l IH]; intros [|n]; simpl; try reflexivity.
  f_equal. apply IH.
Qed.

Lemma update_translation_flag h index text tag :
  Forall (fun t => is_translated t = has_arabic_content (translated_value t))
    (translations h) ->
  Forall (fun t => is_translated t = has_arabic_content (translated_value t))
    (translations (update_translation h index text tag).1).
Proof.
  intros H. unfold update_translation.
  destruct ((0 <=? index) && (index <? len (translations h))); [|exact H].
  simpl. revert H. generalize (Z.to_nat index) as n.
  generalize (translations h) as l.
  induction l as [|x l IH]; intros [|n] H; simpl; try exact H;
    inversion H; subst; constructor; simpl; auto; apply IH; assumption.
Qed.

(** C6. In every state reached from an extraction by [update_translation]
    calls, the stored [is_translated] flag of each item is the majority-script
    test of its current translated value, and the line number, key, original
    value, [needs_translation] flag and pattern index of every item are those
    the extraction gave. *)
Theorem reachable_items_invariant (source : str) (h : PHPFileHandler) :
  reachable source h ->
  Forall (fun t => is_translated t = has_arabic_content (translated_value t))
    (translations h) /\
  List.map frozen (translations h)
    = List.map frozen (extract_translations source).
Proof.
  induction 1 as [h Hc Ht|h index text tag Hr [IH1 IH2]].
  - rewrite Ht. split; [|reflexivity].
    apply extract_translations_Forall.
    intros line_no raw i m t. unfold translation_item.
    destruct (is_valid_translation_pair _ _); [|discriminate].
    intros [= <-]. reflexivity.
  - split.
    + apply update_translation_flag, IH1.
    + rewrite update_translation_frozen. exact IH2.
Qed.

(** C10. [update_translation] returns [False] exactly when the index is
    negative or not below the number of items, and then the handler, its
    items and its [modified] flag are as before.  Otherwise it returns
    [True], sets [modified], and the items are as before but for the
    addressed one, whose translated value, [is_translated] flag and
    translation type only are new. *)
Theorem update_translation_contract (h : PHPFileHandler) (index : Z)
    (text tag : str) :
  let h' := (update_translation h index text tag).1 in
  let r := (update_translation h index text tag).2 in
  (r = false <-> index < 0 \/ len (translations h) <= index) /\
  (r = false -> h' = h) /\
  (r = true ->
     modified h' = true /\
     length (translations h') = length (translations h) /\
     (forall j, j <> Z.to_nat index ->
        translations h' !! j = translations h !! j) /\
     exists item item',
       translations h !! Z.to_nat index = Some item /\
       translations h' !! Z.to_nat index = Some item' /\
       frozen item' = frozen item /\
       original_line item' = original_line item /\
       translated_value item' = text /\
       is_translated item' = has_arabic_content text /\
       translation_type item' = tag).
Proof.
  intros h' r. subst h' r.
  destruct (Z_lt_dec index 0) as [Hn|Hn];
    [|destruct (Z_le_dec (len (translations h)) index) as [Hl|Hl]].
  1,2: rewrite update_translation_out by lia; simpl;
       split; [split; [lia|reflexivity]|];
       split; [reflexivity|discriminate].
  rewrite update_translation_in by lia. simpl.
  split; [split; [discriminate|lia]|].
  split; [discriminate|]. intros _.
  split; [reflexivity|].
  split; [apply length_alter|].
  split; [intros j Hj; apply list_lookup_alter_ne; congruence|].
  destruct (translations h !! Z.to_nat index) as [item|] eqn:E.
  - exists item, (set_translation text tag item).
    split; [reflexivity|].
    split; [rewrite list_lookup_alter_eq, E; reflexivity|].
    repeat split.
  - apply lookup_ge_None in E. unfold len in Hl. lia.
Qed.

End UpdateFacts.

(** ** The cache *)

Section CacheFacts.
Context {ud : UnicodeData}.

Lemma cache_set_cache write_ok c text translation :
  cache (cache_set write_ok c text translation)
  = <[clean_text_for_cache text := translation]> (cache c).
Proof.
  unfold cache_set. simpl.
  destruct (_ =? _)%nat; reflexivity.
Qed.

(** C9. After [set(s, v)], [get(t)] returns [v] for every text [t] whose
    normal form (lower-cased and trimmed) is that of [s]; and [get] of a text
    whose normal form is not a key of the cache returns nothing. *)
Theorem cache_set_get (write_ok : bool) (c : TranslationCache)
    (s t v : str) :
  (clean_text_for_cache t = clean_text_for_cache s ->
   cache_get (cache_set write_ok c s v) t = Some v) /\
  (clean_text_for_cache t ∉ dom (cache c) -> cache_get c t = None).
Proof.
  split.
  - intros E. unfold cache_get. rewrite cache_set_cache, E.
    apply lookup_insert_eq.
  - intros H. unfold cache_get. apply not_elem_of_dom. exact H.
Qed.

End CacheFacts.

(** ** The classifier *)

Lemma existsb_rev (p : Z -> bool) (l : str) :
  existsb p (rev l) = existsb p l.
Proof.
  induction l as [|a l IH]; simpl; [reflexivity|].
  rewrite existsb_app, IH. simpl. rewrite orb_false_r. apply orb_comm.
Qed.

Lemma existsb_lstrip (p : Z -> bool) (s : str) :
  (forall c, p c = true -> is_space c = false) ->
  existsb p (lstrip s) = existsb p s.
Proof.
  intros Hp. induction s as [|c s IH]; simpl; [reflexivity|].
  destruct (is_space c) eqn:E; [|reflexivity].
  rewrite IH. destruct (p c) eqn:Ec; [|reflexivity].
  apply Hp in Ec. congruence.
Qed.

Lemma existsb_strip (p : Z -> bool) (s : str) :
  (forall c, p c = true -> is_space c = false) ->
  existsb p (strip s) = existsb p s.
Proof.
  intros Hp. unfold strip, rstrip.
  rewrite existsb_rev, existsb_lstrip, existsb_rev by exact Hp.
  apply existsb_lstrip, Hp.
Qed.

Lemma ascii_letter_not_space c : ascii_letter c = true -> is_space c = false.
Proof.
  unfold ascii_letter, ascii_upper, ascii_lower, is_space, in_range.
  intros H. repeat rewrite orb_false_iff. 
  repeat match goal with |- _ /\ _ => split end;
    try (apply andb_false_iff); lia.
Qed.

Section ClassifierFacts.
Context {ud : UnicodeData}.

(** Searching for one character of a class finds one exactly when the text
    holds one. *)
Lemma search_one (p : cset) (sn rs : str) :
  matched (search_from [one p] sn rs) = existsb p rs.
Proof.
  revert sn. induction rs as [|c rs IH]; intros sn.
  - reflexivity.
  - simpl. unfold match_at. simpl.
    destruct (p c) eqn:E; simpl.
    + reflexivity.
    + apply IH.
Qed.

Lemma needs_translation_unfold text :
  needs_translation_of text =
  negb (excluded (strip text)) &&
  (existsb ascii_letter text &&
   (0 <? count_matches word_pattern (strip text))%nat).
Proof.
  unfold needs_translation_of, excluded.
  destruct text as [|c text]; [reflexivity|].
  set (t := strip (c :: text)).
  destruct (len t <? 2); [reflexivity|].
  destruct (isdigit t); [reflexivity|].
  destruct (existsb _ programming_patterns); [reflexivity|].
  destruct (matched (re_match html_tag_pattern t)); [reflexivity|].
  destruct (has_arabic_content t); [reflexivity|].
  cbn [orb negb andb].
  destruct (_ && _); [reflexivity|]. cbn [negb andb].
  unfold re_search. rewrite search_one. subst t.
  rewrite existsb_strip by exact ascii_letter_not_space. reflexivity.
Qed.

(** A text with no Latin letter never needs translation. *)
Lemma needs_translation_no_latin text :
  existsb ascii_letter text = false -> needs_translation_of text = false.
Proof.
  intros H. rewrite needs_translation_unfold, H. apply andb_false_r.
Qed.

(** C5. [needs_translation] is [False] for ["$userName"], ["123-456"] and
    ["مرحبا"] and [True] for ["Submit Order"]; and for a text that passes
    every exclusion rule it is [True] exactly when the text holds a Latin
    letter and has at least one alphabetic word token. *)
Theorem needs_translation_rule :
  needs_translation_of (u "$userName") = false /\
  needs_translation_of (u "123-456") = false /\
  needs_translation_of marhaba = false /\
  needs_translation_of (u "Submit Order") = true /\
  forall text,
    excluded (strip text) = false ->
    (needs_translation_of text = true <->
     Exists (fun c => ascii_letter c = true) text /\
     (0 < count_matches word_pattern (strip text))%nat).
Proof.
  split; [vm_compute; reflexivity|].
  split; [vm_compute; reflexivity|].
  split; [apply needs_translation_no_latin; reflexivity|].
  split; [vm_compute; reflexivity|].
  intros text Hex. rewrite needs_translation_unfold, Hex. cbn [negb andb].
  rewrite andb_true_iff, Nat.ltb_lt.
  rewrite List.Exists_exists, <- existsb_exists. reflexivity.
Qed.

End ClassifierFacts.

(** ** Large sources *)

Lemma chunk_size_pos : (1 <= chunk_size)%nat.
Proof. unfold chunk_size. lia. Qed.

Section LargeFacts.
Context {ud : UnicodeData}.

Lemma process_lines_chunk_app l1 l2 start patterns :
  process_lines_chunk (l1 ++ l2) start patterns
  = process_lines_chunk l1 start patterns ++
    process_lines_chunk l2 (start + len l1) patterns.
Proof.
  revert start. induction l1 as [|l l1 IH]; intros start.
  - cbn [app process_lines_chunk]. unfold len. simpl.
    rewrite Z.add_0_r. reflexivity.
  - cbn [app process_lines_chunk]. rewrite IH, <- app_assoc.
    do 3 f_equal. unfold len. cbn [length]. lia.
Qed.

(** The chunks, one after the other, give what one pass over all the lines
    gives. *)
Lemma process_chunks_all fuel start lines :
  (length lines <= fuel)%nat ->
  process_chunks fuel start lines
  = process_lines_chunk lines start optimized_patterns.
Proof.
  revert start lines. induction fuel as [|f IH]; intros start lines Hf.
  - destruct lines; [reflexivity|simpl in Hf; lia].
  - cbn [process_chunks]. destruct lines as [|l ls]; [reflexivity|].
    pose proof chunk_size_pos as Hc.
    rewrite <- (firstn_skipn chunk_size (l :: ls)) at 3.
    rewrite process_lines_chunk_app. f_equal.
    destruct (Nat.le_gt_cases chunk_size (length (l :: ls))) as [Hle|Hgt].
    + rewrite IH.
      * f_equal. unfold len. rewrite length_firstn. lia.
      * rewrite length_skipn. cbn [length] in *. lia.
    + rewrite skipn_all2 by lia.
      destruct f; reflexivity.
Qed.

Lemma translation_item_line line_no raw i m t :
  translation_item line_no raw i m = Some t -> line_number t = line_no.
Proof.
  unfold translation_item.
  destruct (is_valid_translation_pair _ _); [|discriminate].
  intros [= <-]. reflexivity.
Qed.

Lemma match_patterns_line line_no raw line i patterns :
  Forall (fun t => line_number t = line_no)
    (match_patterns line_no raw line i patterns).
Proof.
  apply Forall_forall. intros t Ht. revert i Ht.
  induction patterns as [|p ps IH]; intros i Ht; simpl in Ht.
  - inversion Ht.
  - apply elem_of_app in Ht as [Ht|Ht]; [|eapply IH; exact Ht].
    apply list_elem_of_omap in Ht as (m & _ & Hm).
    eapply translation_item_line; exact Hm.
Qed.

(** Every item of a chunk comes from a line of the chunk that is neither
    skipped nor longer than 1000 characters, and carries its number. *)
Lemma process_lines_chunk_origin lines start patterns t :
  t ∈ process_lines_chunk lines start patterns ->
  exists i line,
    lines !! i = Some line /\ line_number t = start + Z.of_nat i + 1 /\
    len line <= 1000 /\ skipped_line line = false.
Proof.
  revert start. induction lines as [|l ls IH]; intros start Ht; simpl in Ht.
  - inversion Ht.
  - apply elem_of_app in Ht as [Ht|Ht].
    + exists 0%nat, l. unfold chunk_line in Ht.
      destruct (skipped_line l) eqn:Hs; [inversion Ht|].
      destruct (1000 <? len l) eqn:Hl; [inversion Ht|].
      apply Z.ltb_ge in Hl.
      pose proof (match_patterns_line (start + 1) (firstn 500 (strip l)) l 0
                    patterns) as Hf.
      rewrite Forall_forall in Hf. apply Hf in Ht.
      repeat split; [lia|exact Hl].
    + apply IH in Ht as (i & line & Hi & Hn & Hl & Hs).
      exists (S i), line. repeat split; [exact Hi|lia|exact Hl|exact Hs].
Qed.

Lemma deduplicate_from_fresh seen_keys l t :
  t ∈ deduplicate_from seen_keys l -> unique_key t ∉ seen_keys.
Proof.
  revert seen_keys. induction l as [|x l IH]; intros sk Ht; simpl in Ht.
  - inversion Ht.
  - destruct (bool_decide_reflect (unique_key x ∈ sk)) as [Hx|Hx].
    + apply IH, Ht.
    + apply elem_of_cons in Ht as [->|Ht]; [exact Hx|].
      apply IH in Ht. set_solver.
Qed.

Lemma deduplicate_from_NoDup seen_keys l :
  NoDup (unique_key <$> deduplicate_from seen_keys l).
Proof.
  revert seen_keys. induction l as [|x l IH]; intros sk; simpl.
  - constructor.
  - destruct (bool_decide_reflect (unique_key x ∈ sk)) as [Hx|Hx];
      [apply IH|].
    rewrite fmap_cons. apply NoDup_cons. split; [|apply IH].
    intros Hin. apply list_elem_of_fmap in Hin as (t & Hk & Ht).
    apply deduplicate_from_fresh in Ht. rewrite <- Hk in Ht. set_solver.
Qed.

Lemma deduplicate_from_sublist seen_keys l :
  sublist (deduplicate_from seen_keys l) l.
Proof.
  revert seen_keys. induction l as [|x l IH]; intros sk; simpl.
  - constructor.
  - destruct (bool_decide (unique_key x ∈ sk)).
    + apply sublist_cons, IH.
    + apply sublist_skip, IH.
Qed.

(** An item is kept exactly when it is the first of its key and the key was
    not seen before. *)
Lemma deduplicate_from_first seen_keys l t :
  t ∈ deduplicate_from seen_keys l <->
  (exists before after,
     l = before ++ t :: after /\
     (unique_key t ∉ (unique_key <$> before)) /\
     (unique_key t ∉ seen_keys)).
Proof.
  revert seen_keys. induction l as [|x l IH]; intros sk; simpl.
  - split; [intros H; inversion H|].
    intros (b & a & E & _). destruct b; discriminate.
  - destruct (bool_decide_reflect (unique_key x ∈ sk)) as [Hx|Hx].
    + rewrite IH. split.
      * intros (b & a & -> & Hb & Hs). exists (x :: b), a.
        split; [reflexivity|]. split; [|exact Hs].
        rewrite fmap_cons, not_elem_of_cons. split; [|exact Hb].
        intros E. rewrite E in Hs. contradiction.
      * intros (b & a & E & Hb & Hs). destruct b as [|y b].
        -- injection E as -> _. contradiction.
        -- injection E as -> ->. exists b, a.
           rewrite fmap_cons, not_elem_of_cons in Hb.
           split; [reflexivity|]. split; [apply Hb|exact Hs].
    + rewrite elem_of_cons, IH. split.
      * intros [->|(b & a & -> & Hb & Hs)].
        -- exists [], l. split; [reflexivity|].
           split; [apply not_elem_of_nil|exact Hx].
        -- exists (x :: b), a. split; [reflexivity|].
           apply not_elem_of_union in Hs as [Hs1 Hs2].
           apply not_elem_of_singleton in Hs1.
           rewrite fmap_cons, not_elem_of_cons. auto.
      * intros (b & a & E & Hb & Hs). destruct b as [|y b].
        -- injection E as -> _. left. reflexivity.
        -- injection E as -> ->. right. exists b, a.
           rewrite fmap_cons, not_elem_of_cons in Hb.
           split; [reflexivity|]. split; [apply Hb|].
           apply not_elem_of_union. split; [|exact Hs].
           apply not_elem_of_singleton, Hb.
Qed.

(** C7. For a source of more than 100,000 characters: the chunks give what
    one pass over the lines gives; no item comes from a line of more than
    1,000 characters; no two items of the result share the pair of their
    lower-cased key and lower-cased original value; and the result keeps, in
    extraction order, exactly the first item of each such pair. *)
Theorem large_source_extraction (source : str) :
  100000 < len source ->
  let lines := split_on LF source in
  let raw := process_chunks (length lines) 0 lines in
  let items := extract_translations source in
  raw = process_lines_chunk lines 0 optimized_patterns /\
  (forall i line t,
     lines !! i = Some line -> 1000 < len line -> t ∈ items ->
     line_number t <> Z.of_nat i + 1) /\
  NoDup (unique_key <$> items) /\
  sublist items raw /\
  (forall t, t ∈ items <->
     (exists before after,
        raw = before ++ t :: after /\
        unique_key t ∉ (unique_key <$> before))).
Proof.
  intros Hlen lines raw items.
  assert (Hitems : items = deduplicate_from ∅ raw).
  { subst items. unfold extract_translations.
    apply Z.ltb_lt in Hlen. rewrite Hlen. reflexivity. }
  assert (Hraw : raw = process_lines_chunk lines 0 optimized_patterns).
  { apply process_chunks_all. lia. }
  split; [exact Hraw|].
  split.
  { intros i line t Hi Hlong Ht Hn.
    assert (Hin : t ∈ raw).
    { rewrite Hitems in Ht.
      eapply elem_of_sublist; [exact Ht|apply deduplicate_from_sublist]. }
    rewrite Hraw in Hin.
    apply process_lines_chunk_origin in Hin as (j & l' & Hj & Hnj & Hl & _).
    assert (j = i) by lia. subst j.
    rewrite Hi in Hj. injection Hj as <-. lia. }
  rewrite Hitems.
  split; [apply deduplicate_from_NoDup|].
  split; [apply deduplicate_from_sublist|].
  intros t. rewrite deduplicate_from_first. split.
  - intros (b & a & E & Hb & _). eauto.
  - intros (b & a & E & Hb). exists b, a.
    split; [exact E|]. split; [exact Hb|]. set_solver.
Qed.

End LargeFacts.

(** ** Grouping *)

Lemma unclaimed_elem i l (P : gset nat) x :
  x ∈ unclaimed i l P -> exists k, l !! k = Some x /\ (i + k)%nat ∉ P.
Proof.
  revert i. induction l as [|t l IH]; intros i Hx; simpl in Hx.
  - inversion Hx.
  - destruct (bool_decide_reflect (i ∈ P)) as [Hi|Hi].
    + apply IH in Hx as (k & Hk & Hn). exists (S k).
      split; [exact Hk|]. replace (i + S k)%nat with (S i + k)%nat by lia.
      exact Hn.
    + apply elem_of_cons in Hx as [->|Hx].
      * exists 0%nat. split; [reflexivity|].
        rewrite Nat.add_0_r. exact Hi.
      * apply IH in Hx as (k & Hk & Hn). exists (S k).
        split; [exact Hk|]. replace (i + S k)%nat with (S i + k)%nat by lia.
        exact Hn.
Qed.

Lemma unclaimed_insert_lt i j l (P : gset nat) :
  (j < i)%nat -> unclaimed i l ({[ j ]} ∪ P) = unclaimed i l P.
Proof.
  revert i. induction l as [|t l IH]; intros i Hj; simpl; [reflexivity|].
  rewrite IH by lia.
  destruct (bool_decide_reflect (i ∈ P)) as [Hi|Hi].
  - rewrite bool_decide_eq_true_2; [reflexivity|].
    apply elem_of_union. right. exact Hi.
  - rewrite bool_decide_eq_false_2; [reflexivity|].
    intros H. apply elem_of_union in H as [H|H]; [|contradiction].
    apply elem_of_singleton in H. lia.
Qed.

Lemma unclaimed_empty i l : unclaimed i l ∅ = l.
Proof.
  revert i. induction l as [|t l IH]; intros i; simpl; [reflexivity|].
  rewrite IH. reflexivity.
Qed.

Section GroupingFacts.
Context {ud : UnicodeData}.

(** The inner loop: what is added to the group, and what is left. *)
Lemma scan_similar_spec threshold text others :
  forall j grp (P : gset nat) grp' P',
  scan_similar threshold text j others grp P = (grp', P') ->
  exists added,
    grp' = grp ++ added /\
    Forall (fun x => similar threshold text x = true) added /\
    P ⊆ P' /\
    (forall k, k ∈ P' -> k ∈ P \/ (j <= k)%nat) /\
    ((length grp < 10)%nat -> (length grp' <= 10)%nat) /\
    ((length grp' < 10)%nat ->
     forall k o, others !! k = Some o -> (j + k)%nat ∉ P' ->
                 similar threshold text o = false) /\
    added ++ unclaimed j others P' ≡ₚ unclaimed j others P.
Proof.
  induction others as [|o others IH]; intros j grp P grp' P' H;
    cbn [scan_similar] in H.
  - injection H as <- <-. exists []. rewrite app_nil_r.
    split; [reflexivity|]. split; [constructor|]. split; [reflexivity|].
    split; [auto|]. split; [lia|].
    split; [intros _ k o Hk; inversion Hk|reflexivity].
  - destruct (bool_decide_reflect (j ∈ P)) as [Hj|Hj].
    { apply IH in H as (added & E & Hs & Hsub & Hnew & Hlen & Hrest & Hperm).
      exists added. split; [exact E|]. split; [exact Hs|].
      split; [exact Hsub|].
      split; [intros k Hk; destruct (Hnew k Hk); [left|right; lia]; auto|].
      split; [exact Hlen|].
      split.
      - intros Hl [|k] o' Hk Hn.
        + exfalso. apply Hn. rewrite Nat.add_0_r. apply Hsub, Hj.
        + apply (Hrest Hl k o' Hk).
          replace (S j + k)%nat with (j + S k)%nat by lia. exact Hn.
      - simpl. rewrite bool_decide_eq_true_2 by (apply Hsub, Hj).
        rewrite bool_decide_eq_true_2 by exact Hj. exact Hperm. }
    cbv zeta in H. fold (similar threshold text o) in H.
    destruct (similar threshold text o) eqn:Hsim.
    + destruct (10 <=? length (grp ++ [o]))%nat eqn:Hfull.
      * injection H as <- <-. exists [o].
        apply Nat.leb_le in Hfull. rewrite length_app in Hfull.
        simpl in Hfull.
        split; [reflexivity|].
        split; [constructor; [exact Hsim|constructor]|].
        split; [apply union_subseteq_r|].
        split.
        { intros k Hk. apply elem_of_union in Hk as [Hk|Hk];
            [apply elem_of_singleton in Hk; right; lia|left; exact Hk]. }
        split; [rewrite length_app; simpl; lia|].
        split; [rewrite length_app; simpl; lia|].
        simpl. rewrite bool_decide_eq_true_2
          by (apply elem_of_union; left; apply elem_of_singleton; reflexivity).
        rewrite bool_decide_eq_false_2 by exact Hj.
        rewrite unclaimed_insert_lt by lia. reflexivity.
      * apply Nat.leb_gt in Hfull. rewrite length_app in Hfull.
        simpl in Hfull.
        apply IH in H as (added & E & Hs & Hsub & Hnew & Hlen & Hrest & Hperm).
        exists (o :: added).
        split; [rewrite E, <- app_assoc; reflexivity|].
        split; [constructor; [exact Hsim|exact Hs]|].
        split; [etrans; [apply union_subseteq_r|exact Hsub]|].
        split.
        { intros k Hk. destruct (Hnew k Hk) as [Hk'|Hk']; [|right; lia].
          apply elem_of_union in Hk' as [Hk'|Hk'];
            [apply elem_of_singleton in Hk'; right; lia|left; exact Hk']. }
        split; [intros _; apply Hlen; rewrite length_app; simpl; lia|].
        assert (HjP' : j ∈ P').
        { apply Hsub, elem_of_union. left. apply elem_of_singleton.
          reflexivity. }
        split.
        { intros Hl [|k] o' Hk Hn.
          - exfalso. apply Hn. rewrite Nat.add_0_r. exact HjP'.
          - apply (Hrest Hl k o' Hk).
            replace (S j + k)%nat with (j + S k)%nat by lia. exact Hn. }
        simpl. rewrite bool_decide_eq_true_2 by exact HjP'.
        rewrite bool_decide_eq_false_2 by exact Hj.
        rewrite unclaimed_insert_lt in Hperm by lia.
        rewrite Hperm. reflexivity.
    + apply IH in H as (added & E & Hs & Hsub & Hnew & Hlen & Hrest & Hperm).
      exists added. split; [exact E|]. split; [exact Hs|].
      split; [exact Hsub|].
      split; [intros k Hk; destruct (Hnew k Hk); [left|right; lia]; auto|].
      split; [exact Hlen|].
      assert (HjP' : j ∉ P').
      { intros Hk. destruct (Hnew j Hk); [contradiction|lia]. }
      split.
      { intros Hl [|k] o' Hk Hn.
        - injection Hk as <-. exact Hsim.
        - apply (Hrest Hl k o' Hk).
          replace (S j + k)%nat with (j + S k)%nat by lia. exact Hn. }
      simpl. rewrite bool_decide_eq_false_2 by exact HjP'.
      rewrite bool_decide_eq_false_2 by exact Hj.
      rewrite <- Hperm. symmetry. apply Permutation_middle.
Qed.

(** The outer loop: the groups partition the unclaimed texts; each group is
    a seed followed by texts similar to it, ten texts at most; and a text of
    a later group is not similar to the seed of an earlier group that did not
    fill up. *)
Lemma group_from_spec threshold texts :
  forall i (P : gset nat),
  concat (group_from threshold i texts P) ≡ₚ unclaimed i texts P /\
  Forall (fun g => exists seed members,
            g = seed :: members /\ (length g <= 10)%nat /\
            Forall (fun x => similar threshold seed x = true) members)
    (group_from threshold i texts P) /\
  ForallOrdPairs
    (fun g1 g2 => (length g1 < 10)%nat -> forall seed, head g1 = Some seed ->
                  Forall (fun x => similar threshold seed x = false) g2)
    (group_from threshold i texts P).
Proof.
  induction texts as [|t texts IH]; intros i P; cbn [group_from unclaimed].
  - split; [reflexivity|]. split; constructor.
  - destruct (bool_decide_reflect (i ∈ P)) as [Hi|Hi]; [apply IH|].
    destruct (scan_similar threshold t (S i) texts [t] ({[i]} ∪ P))
      as [g P'] eqn:Hs.
    apply scan_similar_spec in Hs
      as (added & E & Hsim & Hsub & Hnew & Hlen & Hrest & Hperm).
    destruct (IH (S i) P') as (IHp & IHf & IHo).
    rewrite unclaimed_insert_lt in Hperm by lia.
    split; [|split].
    + cbn [concat]. rewrite IHp, E. cbn [app]. rewrite Hperm. reflexivity.
    + constructor; [|exact IHf]. exists t, added.
      split; [exact E|]. split; [apply Hlen; simpl; lia|exact Hsim].
    + constructor; [|exact IHo].
      apply Forall_forall. intros g2 Hg2 Hl seed Hseed.
      rewrite E in Hseed. injection Hseed as <-.
      apply Forall_forall. intros x Hx.
      assert (Hin : x ∈ concat (group_from threshold (S i) texts P')).
      { apply list_elem_of_In, in_concat. exists g2.
        split; apply list_elem_of_In; assumption. }
      rewrite IHp in Hin. apply unclaimed_elem in Hin as (k & Hk & Hn).
      exact (Hrest Hl k x Hk Hn).
Qed.

(** C8. On the three example texts with threshold 0.5 the first two are
    grouped and the third is alone.  The similarity of two texts is the size
    of the intersection of their lower-cased word sets over the size of the
    union (0 when either set is empty).  For every list of texts and
    threshold the groups hold every text once; a group is a seed followed by
    texts whose similarity to the seed reaches the threshold, ten texts at
    most; and no text of a later group reaches the threshold with the seed of
    an earlier group of fewer than ten texts. *)
Theorem smart_text_grouping_rule :
  smart_text_grouping greeting_texts (1 # 2)
    = [[u "hello world"; u "hello world test"];
       [u "totally unrelated phrase"]] /\
  (forall text1 text2,
     calculate_similarity text1 text2 =
       if bool_decide (word_set text1 = ∅ \/ word_set text2 = ∅) then 0%Q
       else Qmake (Z.of_nat (size (word_set text1 ∩ word_set text2)))
                  (Pos.of_nat (size (word_set text1 ∪ word_set text2)))) /\
  (forall texts threshold,
     concat (smart_text_grouping texts threshold) ≡ₚ texts /\
     Forall (fun g => exists seed members,
               g = seed :: members /\ (length g <= 10)%nat /\
               Forall (fun x => similar threshold seed x = true) members)
       (smart_text_grouping texts threshold) /\
     ForallOrdPairs
       (fun g1 g2 => (length g1 < 10)%nat ->
                     forall seed, head g1 = Some seed ->
                     Forall (fun x => similar threshold seed x = false) g2)
       (smart_text_grouping texts threshold)).
Proof.
  split; [vm_compute; reflexivity|].
  split.
  - intros text1 text2. unfold calculate_similarity. cbv zeta.
    rewrite bool_decide_or.
    destruct (bool_decide_reflect (word_set text1 = ∅)) as [H1|H1];
      [reflexivity|].
    destruct (bool_decide_reflect (word_set text2 = ∅)) as [H2|H2];
      [reflexivity|].
    cbn [orb].
    assert (Hpos : (0 < size (word_set text1 ∪ word_set text2))%nat).
    { apply Nat.neq_0_lt_0. intros Hz. apply size_empty_inv in Hz.
      apply H1. apply leibniz_equiv. intros x. split; [|set_solver].
      intros Hx. apply Hz. apply elem_of_union. left. exact Hx. }
    apply Nat.ltb_lt in Hpos. rewrite Hpos. reflexivity.
  - intros texts threshold. unfold smart_text_grouping.
    destruct (group_from_spec threshold texts 0 ∅) as (Hp & Hf & Ho).
    rewrite unclaimed_empty in Hp. auto.
Qed.

End GroupingFacts.

(** ** Rewriting: when a line is left alone *)

Lemma startswith_contains s p : startswith s p = true -> contains s p = true.
Proof. intros H. destruct s; cbn [contains]; rewrite H; reflexivity. Qed.

Lemma contains_app_r a b p : contains b p = true -> contains (a ++ b) p = true.
Proof.
  intros H. induction a as [|c a IH]; [exact H|].
  cbn [app contains]. rewrite IH. apply orb_true_r.
Qed.

Lemma shift_whole n sn rs sn' rs' :
  shift n sn rs = (sn', rs') -> rev sn' ++ rs' = rev sn ++ rs.
Proof.
  revert sn rs. induction n as [|n IH]; intros sn rs H; simpl in H.
  - injection H as <- <-. reflexivity.
  - destruct rs as [|c rs]; [injection H as <- <-; reflexivity|].
    apply IH in H. rewrite H. simpl. rewrite <- app_assoc. reflexivity.
Qed.

Lemma give_back_some {A} (k : nat -> option A) n lo r :
  give_back k n lo = Some r -> exists m, k m = Some r.
Proof.
  induction n as [|n IH]; simpl.
  - destruct (k 0%nat) eqn:E; [intros [= <-]; eauto|discriminate].
  - destruct (k (S n)) eqn:E; [intros [= <-]; eauto|].
    destruct (lo <=? n)%nat; [exact IH|discriminate].
Qed.

Section SettledFacts.
Context {ud : UnicodeData}.

Lemma consume_whole n st : whole (consume n st) = whole st.
Proof.
  unfold whole, consume.
  destruct (shift n (seen st) (rest st)) as [sn rs] eqn:E. simpl.
  eapply shift_whole; exact E.
Qed.

(** A match of a pattern that holds the literal [s] shows an occurrence of
    [s] in the text. *)
Lemma m_nodes_literal ok r s :
  In (Lit s) r ->
  forall st st', m_nodes ok r st = Some st' -> contains (whole st) s = true.
Proof.
  induction r as [|n r IH]; intros Hin st st' H; [destruct Hin|].
  destruct Hin as [->|Hin].
  - cbn [m_nodes] in H.
    destruct (startswith (rest st) s) eqn:E; [|discriminate].
    unfold whole. apply contains_app_r, startswith_contains, E.
  - specialize (IH Hin). destruct n; cbn [m_nodes] in H.
    + destruct (_ <=? _)%nat; [|discriminate].
      apply give_back_some in H as (m & H). apply IH in H.
      rewrite consume_whole in H. exact H.
    + destruct (startswith (rest st) s0); [|discriminate].
      apply IH in H. rewrite consume_whole in H. exact H.
    + destruct (seen st); [|discriminate]. eapply IH; exact H.
    + destruct (rest st) as [|c [|c' l]]; try discriminate.
      * eapply IH; exact H.
      * destruct (c =? 10); [|discriminate]. eapply IH; exact H.
    + destruct (xorb _ _); [|discriminate]. eapply IH; exact H.
    + apply IH in H. exact H.
    + apply IH in H. exact H.
Qed.

Lemma search_literal_absent r s sn rs :
  In (Lit s) r -> contains (rev sn ++ rs) s = false ->
  search_from r sn rs = None.
Proof.
  intros Hin. revert sn. induction rs as [|c rs IH]; intros sn Hc;
    cbn [search_from]; unfold match_at.
  - destruct (m_nodes _ r (MState sn [] [] [])) eqn:E; [|reflexivity].
    apply (m_nodes_literal _ _ _ Hin) in E. unfold whole in E. simpl in E.
    congruence.
  - destruct (m_nodes _ r (MState sn (c :: rs) [] [])) eqn:E.
    + apply (m_nodes_literal _ _ _ Hin) in E. unfold whole in E. simpl in E.
      congruence.
    + apply IH. simpl. rewrite <- app_assoc. exact Hc.
Qed.

(** A line that does not hold the original value is returned as it is. *)
Lemma update_line_absent line original_value new_value pattern_index :
  contains line original_value = false ->
  update_line_translation line original_value new_value pattern_index
  = Some line.
Proof.
  intros Hc. unfold update_line_translation, replacement_patterns.
  cbn [try_replacements]. unfold re_search.
  repeat (rewrite (search_literal_absent _ original_value);
          [|unfold anchored_pattern; simpl; tauto|exact Hc]).
  cbn [matched]. rewrite Hc. reflexivity.
Qed.

Lemma rewrite_lines_settled items lines :
  Forall (fun t => settled lines t = true) items ->
  rewrite_lines items lines = Some lines.
Proof.
  intros H. induction H as [|t ts Ht Hts IH]; cbn [rewrite_lines];
    [reflexivity|].
  unfold settled in Ht.
  destruct (rewritable t); [|exact IH].
  destruct ((0 <=? line_number t - 1) && (line_number t - 1 <? len lines));
    [|exact IH].
  destruct (lines !! Z.to_nat (line_number t - 1)) as [line|]; [|exact IH].
  cbn [negb orb] in Ht. apply negb_true_iff in Ht.
  rewrite update_line_absent by exact Ht.
  rewrite bool_decide_eq_false_2 by (intros Hn; apply Hn; reflexivity).
  exact IH.
Qed.

(** C3, amended. When a rebuild of [source] gives [once] and, on the lines of
    [once], every item is settled (it is not rewritable, or addresses no
    line, or its original value no longer occurs on its line), rebuilding
    [once] with the same items gives [once] again. *)
Theorem rebuild_twice_when_settled (source : str)
    (items : list TranslationItem) (once : str) :
  build_new_content source items = Some once ->
  Forall (fun t => settled (split_on LF once) t = true) items ->
  build_new_content once items = Some once.
Proof.
  intros _ H. unfold build_new_content.
  rewrite rewrite_lines_settled by (apply sorted_desc_Forall; exact H).
  f_equal. apply join_split.
Qed.

End SettledFacts.

(** ** The statements above at concrete inputs *)

Lemma rebuild_twice_when_settled_witness :
  translations (update_translation (loaded greeting_source) 0 marhaba manual).1
    = [greeting_item] /\
  build_new_content greeting_source [greeting_item] = Some greeting_once /\
  Forall (fun t => settled (split_on LF greeting_once) t = true)
    [greeting_item] /\
  build_new_content greeting_once [greeting_item] = Some greeting_once.
Proof.
  assert (H1 : build_new_content greeting_source [greeting_item]
               = Some greeting_once)
    by (vm_compute; reflexivity).
  assert (H2 : Forall (fun t => settled (split_on LF greeting_once) t = true)
                 [greeting_item]).
  { constructor; [vm_compute; reflexivity|constructor]. }
  split; [vm_compute; reflexivity|].
  split; [exact H1|]. split; [exact H2|].
  exact (rebuild_twice_when_settled greeting_source [greeting_item]
           greeting_once H1 H2).
Defined.

Lemma load_file_failures_witness :
  load_file no_files notes_txt
    = inl (wrap (Raise FileNotFoundError (msg_not_found ++ notes_txt))) /\
  exc_class (wrap (Raise FileNotFoundError (msg_not_found ++ notes_txt)))
    = Exception.
Proof.
  assert (H : load_file no_files notes_txt
              = inl (wrap (Raise FileNotFoundError
                             (msg_not_found ++ notes_txt))))
    by reflexivity.
  split; [exact H|].
  exact (proj1 (proj1 (load_file_failures no_files notes_txt) _ H)).
Defined.

Lemma needs_translation_rule_witness :
  excluded (strip (u "Submit Order")) = false /\
  (needs_translation_of (u "Submit Order") = true <->
   Exists (fun c => ascii_letter c = true) (u "Submit Order") /\
   (0 < count_matches word_pattern (strip (u "Submit Order")))%nat).
Proof.
  assert (H : excluded (strip (u "Submit Order")) = false)
    by (vm_compute; reflexivity).
  split; [exact H|].
  exact (proj2 (proj2 (proj2 (proj2 needs_translation_rule)))
           (u "Submit Order") H).
Defined.

Lemma reachable_items_invariant_witness :
  let h := (update_translation (loaded hello_source) 0 marhaba manual).1 in
  reachable hello_source h /\
  Forall (fun t => is_translated t = has_arabic_content (translated_value t))
    (translations h) /\
  List.map frozen (translations h)
    = List.map frozen (extract_translations hello_source).
Proof.
  intros h.
  assert (R : reachable hello_source h).
  { apply reach_updated, reach_extracted; reflexivity. }
  split; [exact R|].
  exact (reachable_items_invariant hello_source h R).
Defined.

Lemma large_source_extraction_witness :
  100000 < len big_source /\
  NoDup (unique_key <$> extract_translations big_source).
Proof.
  assert (H : 100000 < len big_source) by (vm_compute; reflexivity).
  split; [exact H|].
  exact (proj1 (proj2 (proj2 (large_source_extraction big_source H)))).
Defined.

Lemma smart_text_grouping_rule_witness :
  (length [u "hello world"; u "hello world test"] < 10)%nat /\
  similar (1 # 2) (u "hello world") (u "totally unrelated phrase") = false.
Proof.
  assert (Hl : (length [u "hello world"; u "hello world test"] < 10)%nat)
    by (simpl; lia).
  split; [exact Hl|].
  destruct smart_text_grouping_rule as (Hex & _ & Hall).
  destruct (Hall greeting_texts (1 # 2)) as (_ & _ & Hord).
  rewrite Hex in Hord. inversion Hord as [|g l Hg _]; subst.
  inversion Hg as [|g2 l2 Hr _]; subst.
  specialize (Hr Hl (u "hello world") eq_refl).
  inversion Hr; subst. assumption.
Defined.

Lemma cache_set_get_witness :
  clean_text_for_cache (u "hello") = clean_text_for_cache (u " Hello ") /\
  cache_get (cache_set true empty_cache (u " Hello ") marhaba) (u "hello")
    = Some marhaba /\
  (clean_text_for_cache (u "hello") ∉ dom (cache empty_cache)) /\
  cache_get empty_cache (u "hello") = None.
Proof.
  assert (H1 : clean_text_for_cache (u "hello")
               = clean_text_for_cache (u " Hello "))
    by (vm_compute; reflexivity).
  assert (H2 : clean_text_for_cache (u "hello") ∉ dom (cache empty_cache)).
  { simpl. rewrite dom_empty_L. apply not_elem_of_empty. }
  destruct (cache_set_get true empty_cache (u " Hello ") (u "hello") marhaba)
    as [Ha _].
  destruct (cache_set_get true empty_cache (u "hello") (u "hello") marhaba)
    as [_ Hb].
  split; [exact H1|]. split; [exact (Ha H1)|].
  split; [exact H2|exact (Hb H2)].
Defined.

Lemma update_translation_contract_witness :
  (update_translation (loaded hello_source) 5 marhaba manual).2 = false /\
  (update_translation (loaded hello_source) 5 marhaba manual).1
    = loaded hello_source /\
  (update_translation (loaded hello_source) 0 marhaba manual).2 = true /\
  modified (update_translation (loaded hello_source) 0 marhaba manual).1
    = true.
Proof.
  assert (H1 : (update_translation (loaded hello_source) 5 marhaba manual).2
               = false) by reflexivity.
  assert (H2 : (update_translation (loaded hello_source) 0 marhaba manual).2
               = true) by reflexivity.
  destruct (update_translation_contract (loaded hello_source) 5 marhaba
              manual) as (_ & Ha & _).
  destruct (update_translation_contract (loaded hello_source) 0 marhaba
              manual) as (_ & _ & Hb).
  split; [exact H1|]. split; [exact (Ha H1)|].
  split; [exact H2|exact (proj1 (Hb H2))].
Defined.

(** ** One-character patterns *)

Lemma shift_firstn n sn rs :
  (n <= length rs)%nat ->
  shift n sn rs = (rev (firstn n rs) ++ sn, skipn n rs).
Proof.
  revert sn rs. induction n as [|n IH]; intros sn rs Hn; [reflexivity|].
  destruct rs as [|c rs]; [simpl in Hn; lia|].
  cbn [shift firstn skipn rev]. rewrite IH by (simpl in Hn; lia).
  rewrite <- app_assoc. reflexivity.
Qed.

Lemma run_len_le p rs : (run_len p rs <= length rs)%nat.
Proof.
  induction rs as [|c rs IH]; simpl; [lia|]. destruct (p c); simpl; lia.
Qed.

Lemma firstn_prefix_rev n (pre sn : str) :
  n = length pre -> rev (firstn n (rev pre ++ sn)) = pre.
Proof.
  intros ->. rewrite <- (length_rev pre), firstn_app, Nat.sub_diag.
  rewrite firstn_all, firstn_O, app_nil_r. apply rev_involutive.
Qed.

Section OneCharFacts.
Context {ud : UnicodeData}.

Lemma match_at_one adv p sn rs :
  match_at adv [one p] sn rs =
  match rs with
  | c :: _ =>
      if p c then Some (RMatch (length sn) (S (length sn)) [c] []) else None
  | [] => None
  end.
Proof.
  unfold match_at, one. cbn [m_nodes].
  destruct rs as [|c rs]; [reflexivity|].
  cbn [rest run_max run_len]. destruct (p c); [|reflexivity].
  cbn [Nat.min Nat.leb give_back consume shift seen rest m_nodes opened caps
       length].
  replace (S (length sn) =? length sn)%nat with false
    by (symmetry; apply Nat.eqb_neq; lia).
  rewrite orb_true_r. cbn [caps seen length].
  replace (S (length sn) - length sn)%nat with 1%nat by lia.
  reflexivity.
Qed.

Lemma scan_one p sn rs : scan [one p] 0 sn rs = hits p (length sn) rs.
Proof.
  revert sn. induction rs as [|c rs IH]; intros sn; cbn [scan hits].
  - unfold matches_here. rewrite match_at_one. reflexivity.
  - unfold matches_here. rewrite match_at_one.
    destruct (p c).
    + cbn [m_end m_start].
      replace (S (length sn) =? length sn)%nat with false
        by (symmetry; apply Nat.eqb_neq; lia).
      cbn [List.map List.last app m_end m_start].
      replace (S (length sn) - length sn - 1)%nat with 0%nat by lia.
      rewrite IH. reflexivity.
    + cbn [List.map List.last app]. rewrite IH. reflexivity.
Qed.

Lemma hits_length p pos rs : length (hits p pos rs) = count_of p rs.
Proof.
  unfold count_of. revert pos. induction rs as [|c rs IH]; intros pos;
    simpl; [reflexivity|].
  destruct (p c); simpl; rewrite IH; reflexivity.
Qed.

(** Counting the matches of a one-character class counts the characters of
    the class. *)
Lemma count_matches_one p s : count_matches [one p] s = count_of p s.
Proof.
  unfold count_matches, re_finditer. rewrite scan_one. apply hits_length.
Qed.

Lemma assemble_step tpl (s : str) pos c ms :
  skipn pos s = c :: skipn (S pos) s ->
  match ms with [] => True | m :: _ => (S pos <= m_start m)%nat end ->
  assemble tpl s pos ms = c :: assemble tpl s (S pos) ms.
Proof.
  intros Hs Hm. destruct ms as [|m ms]; cbn [assemble]; [exact Hs|].
  rewrite Hs. replace (m_start m - pos)%nat with (S (m_start m - S pos))
    by lia.
  reflexivity.
Qed.

Lemma hits_head p pos rs :
  match hits p pos rs with [] => True | m :: _ => (pos <= m_start m)%nat end.
Proof.
  revert pos. induction rs as [|c rs IH]; intros pos; simpl; [exact I|].
  destruct (p c); simpl; [lia|].
  specialize (IH (S pos)). destruct (hits p (S pos) rs); [exact I|lia].
Qed.

Lemma skipn_app_cons (pre : str) c rs :
  skipn (length pre) (pre ++ c :: rs)
  = c :: skipn (S (length pre)) (pre ++ c :: rs).
Proof.
  rewrite skipn_app, Nat.sub_diag, skipn_all, app_nil_l. cbn [skipn].
  replace (S (length pre)) with (length (pre ++ [c]))
    by (rewrite length_app; simpl; lia).
  replace (pre ++ c :: rs) with ((pre ++ [c]) ++ rs)
    by (rewrite <- app_assoc; reflexivity).
  rewrite skipn_app, Nat.sub_diag, skipn_all, app_nil_l. reflexivity.
Qed.

Lemma expand_literal literal m : expand (List.map TChar literal) m = literal.
Proof.
  unfold expand. induction literal as [|c l IH]; simpl; [reflexivity|].
  rewrite IH. reflexivity.
Qed.

Lemma assemble_hits p literal rs :
  forall pre,
  assemble (List.map TChar literal) (pre ++ rs) (length pre)
    (hits p (length pre) rs)
  = flat_map (fun c => if p c then literal else [c]) rs.
Proof.
  induction rs as [|c rs IH]; intros pre; cbn [hits flat_map].
  - cbn [assemble]. rewrite app_nil_r. apply skipn_all.
  - assert (E : pre ++ c :: rs = (pre ++ [c]) ++ rs)
      by (rewrite <- app_assoc; reflexivity).
    assert (El : S (length pre) = length (pre ++ [c]))
      by (rewrite length_app; simpl; lia).
    destruct (p c).
    + cbn [assemble m_start m_end]. rewrite Nat.sub_diag, firstn_O.
      rewrite expand_literal. cbn [app]. f_equal.
      rewrite E, El. apply IH.
    + rewrite assemble_step with (c := c).
      * cbn [app]. f_equal. rewrite E, El. apply IH.
      * apply skipn_app_cons.
      * apply hits_head.
Qed.

(** Replacing the matches of a one-character class by a literal replaces
    every character of the class. *)
Lemma re_sub_literal_one p literal s :
  re_sub_literal [one p] literal s
  = flat_map (fun c => if p c then literal else [c]) s.
Proof.
  unfold re_sub_literal, re_finditer. rewrite scan_one.
  exact (assemble_hits p literal s []).
Qed.

Lemma re_delete_one p s :
  re_delete [one p] s = List.filter (fun c => negb (p c)) s.
Proof.
  change (re_delete [one p] s) with (re_sub_literal [one p] [] s).
  rewrite re_sub_literal_one.
  induction s as [|c s IH]; simpl; [reflexivity|].
  rewrite IH. destruct (p c); reflexivity.
Qed.

End OneCharFacts.

(** ** Runs of a class *)

Lemma give_back_first {A} (k : nat -> option A) n lo r :
  k n = Some r -> give_back k n lo = Some r.
Proof. intros H. destruct n; simpl; rewrite H; reflexivity. Qed.

Section RunFacts.
Context {ud : UnicodeData}.

Lemma match_at_start adv r sn rs m :
  match_at adv r sn rs = Some m -> m_start m = length sn.
Proof.
  unfold match_at. destruct (m_nodes _ r _); [|discriminate].
  intros [= <-]. reflexivity.
Qed.

Lemma matches_here_start r sn rs :
  Forall (fun m => m_start m = length sn) (matches_here r sn rs).
Proof.
  unfold matches_here.
  destruct (match_at false r sn rs) as [m|] eqn:E; [|constructor].
  apply match_at_start in E.
  destruct (m_end m =? m_start m)%nat; [|repeat constructor; exact E].
  constructor; [exact E|].
  destruct (match_at true r sn rs) as [m2|] eqn:E2; [|constructor].
  apply match_at_start in E2. repeat constructor. exact E2.
Qed.

(** The first match of a scan does not start before the scan. *)
Lemma scan_head r rs :
  forall sn k,
  match scan r k sn rs with
  | [] => True
  | m :: _ => (length sn <= m_start m)%nat
  end.
Proof.
  induction rs as [|c rs IH]; intros sn k.
  - destruct k; cbn [scan]; [|exact I]. rewrite app_nil_r.
    pose proof (matches_here_start r sn []) as H.
    destruct (matches_here r sn []); [exact I|].
    inversion H; subst. lia.
  - destruct k; cbn [scan].
    + pose proof (matches_here_start r sn (c :: rs)) as H.
      destruct (matches_here r sn (c :: rs)) as [|m ms].
      * cbn [app]. specialize (IH (c :: sn) 0%nat).
        cbn [List.map List.last].
        destruct (scan r 0 (c :: sn) rs); [exact I|]. simpl in IH. lia.
      * cbn [app]. inversion H; subst. lia.
    + specialize (IH (c :: sn) k).
      destruct (scan r k (c :: sn) rs); [exact I|]. simpl in IH. lia.
Qed.

Lemma match_at_plus p sn rs :
  match_at false [plus p] sn rs =
  if (1 <=? run_len p rs)%nat
  then Some (RMatch (length sn) (length sn + run_len p rs)
               (firstn (run_len p rs) rs) [])
  else None.
Proof.
  unfold match_at, plus. cbn [m_nodes rest run_max].
  destruct (1 <=? run_len p rs)%nat; [|reflexivity].
  pose proof (run_len_le p rs) as Hle.
  erewrite give_back_first; cycle 1.
  { cbn [m_nodes]. cbn [negb orb]. reflexivity. }
  unfold consume. cbn [seen rest opened caps].
  rewrite shift_firstn by exact Hle. cbn [seen caps].
  rewrite length_app, length_rev, length_firstn.
  rewrite Nat.min_l by exact Hle.
  replace (run_len p rs + length sn - length sn)%nat with (run_len p rs)
    by lia.
  rewrite firstn_prefix_rev
    by (rewrite length_firstn, Nat.min_l by exact Hle; reflexivity).
  f_equal. f_equal. lia.
Qed.

(** Deleting the runs of a class deletes the characters of the class. *)
Lemma scan_plus_delete p rs :
  forall sn k, (k <= run_len p rs)%nat ->
  assemble [] (rev sn ++ rs) (length sn + k) (scan [plus p] k sn rs)
  = List.filter (fun c => negb (p c)) rs.
Proof.
  induction rs as [|c rs IH]; intros sn k Hk.
  - simpl in Hk. assert (k = 0%nat) by lia. subst k.
    cbn [scan]. unfold matches_here. rewrite match_at_plus.
    cbn [run_len Nat.leb app assemble List.filter].
    rewrite app_nil_r, Nat.add_0_r.
    rewrite <- (length_rev sn). apply skipn_all.
  - assert (Ew : rev (c :: sn) ++ rs = rev sn ++ c :: rs)
      by (cbn [rev]; rewrite <- app_assoc; reflexivity).
    destruct k as [|k]; cbn [scan].
    + unfold matches_here. rewrite match_at_plus.
      cbn [run_len List.filter]. destruct (p c) eqn:Epc.
      * cbn [Nat.leb m_end m_start negb].
        replace (length sn + S (run_len p rs) =? length sn)%nat with false
          by (symmetry; apply Nat.eqb_neq; lia).
        cbn [List.map List.last app assemble m_start m_end].
        rewrite Nat.add_0_r, Nat.sub_diag, firstn_O. cbn [expand flat_map app].
        replace (length sn + S (run_len p rs) - length sn - 1)%nat
          with (run_len p rs) by lia.
        rewrite <- Ew.
        replace (length sn + S (run_len p rs))%nat
          with (length (c :: sn) + run_len p rs)%nat by (simpl; lia).
        apply IH. lia.
      * cbn [Nat.leb List.map List.last app negb].
        rewrite Nat.add_0_r. rewrite assemble_step with (c := c).
        -- f_equal. rewrite <- Ew.
           replace (S (length sn)) with (length (c :: sn) + 0)%nat
             by (simpl; lia).
           apply IH. lia.
        -- rewrite <- (length_rev sn). apply skipn_app_cons.
        -- pose proof (scan_head [plus p] rs (c :: sn) 0%nat) as Hh.
           destruct (scan [plus p] 0 (c :: sn) rs); [exact I|].
           simpl in Hh. lia.
    + cbn [run_len List.filter] in *. destruct (p c) eqn:Epc; [|lia].
      cbn [negb]. rewrite <- Ew.
      replace (length sn + S k)%nat with (length (c :: sn) + k)%nat
        by (simpl; lia).
      apply IH. lia.
Qed.

Lemma re_delete_plus p s :
  re_delete [plus p] s = List.filter (fun c => negb (p c)) s.
Proof.
  unfold re_delete, re_finditer.
  exact (scan_plus_delete p s [] 0%nat (Nat.le_0_l _)).
Qed.

Lemma search_plus p sn rs :
  matched (search_from [plus p] sn rs) = existsb p rs.
Proof.
  revert sn. induction rs as [|c rs IH]; intros sn; cbn [search_from].
  - rewrite match_at_plus. reflexivity.
  - rewrite match_at_plus. cbn [run_len existsb].
    destruct (p c); [reflexivity|]. cbn [Nat.leb orb]. apply IH.
Qed.

End RunFacts.

(** ** The majority-script test, by counting *)

Lemma count_of_filter q f s :
  count_of q (List.filter f s) = count_of (fun c => q c && f c) s.
Proof.
  unfold count_of. induction s as [|c s IH]; simpl; [reflexivity|].
  destruct (f c); simpl.
  - rewrite andb_true_r. destruct (q c); simpl; rewrite IH; reflexivity.
  - rewrite andb_false_r. exact IH.
Qed.

Lemma count_of_ext q1 q2 s :
  (forall c, q1 c = q2 c) -> count_of q1 s = count_of q2 s.
Proof.
  intros H. unfold count_of. induction s as [|c s IH]; simpl; [reflexivity|].
  rewrite H. destruct (q2 c); simpl; rewrite IH; reflexivity.
Qed.

Lemma count_of_or q1 q2 s :
  (forall c, q1 c && q2 c = false) ->
  count_of (fun c => q1 c || q2 c) s = (count_of q1 s + count_of q2 s)%nat.
Proof.
  intros H. unfold count_of. induction s as [|c s IH]; simpl; [reflexivity|].
  specialize (H c). destruct (q1 c), (q2 c); simpl in *; try discriminate;
    rewrite IH; lia.
Qed.

Lemma count_of_existsb q s : (0 <? count_of q s)%nat = existsb q s.
Proof.
  unfold count_of. induction s as [|c s IH]; simpl; [reflexivity|].
  destruct (q c); simpl; [reflexivity|exact IH].
Qed.

Lemma is_arabic_not_space c : is_arabic c = true -> is_space c = false.
Proof.
  unfold is_arabic, is_space, in_range. intros H.
  repeat rewrite orb_false_iff.
  repeat match goal with |- _ /\ _ => split end;
    try (apply andb_false_iff); lia.
Qed.

Lemma is_arabic_not_ascii c : is_arabic c = true -> ascii_letter c = false.
Proof.
  unfold is_arabic, ascii_letter, ascii_upper, ascii_lower, in_range.
  intros H. apply orb_false_iff. split; apply andb_false_iff; lia.
Qed.

Section MajorityFacts.
Context {ud : UnicodeData}.

Lemma ascii_letter_word c :
  ascii_letter c = true -> is_word c = true /\ is_decimal c = false.
Proof.
  unfold is_word, is_decimal, ascii_letter, ascii_upper, ascii_lower,
    is_ascii, ascii_digit, in_range.
  intros H.
  replace ((0 <=? c) && (c <=? 127)) with true by (symmetry; lia).
  split; [rewrite H; reflexivity|lia].
Qed.

(** [has_arabic_content] holds exactly when the Arabic letters of the text
    outnumber its Latin letters. *)
Lemma has_arabic_content_counts text :
  has_arabic_content text
  = (count_of ascii_letter text <? count_of arabic_letter text)%nat.
Proof.
  unfold has_arabic_content. destruct text as [|c0 text0]; [reflexivity|].
  set (text := c0 :: text0). cbv zeta.
  rewrite !count_matches_one, re_delete_plus, re_delete_one.
  rewrite !count_of_filter.
  assert (Ea : count_of
                 (fun c => is_arabic c && negb (is_decimal c) &&
                           negb (negb (is_word c || is_space c))) text
               = count_of arabic_letter text).
  { apply count_of_ext. intros c. unfold arabic_letter.
    destruct (is_arabic c) eqn:E; [|reflexivity].
    rewrite (is_arabic_not_space c E), orb_false_r, negb_involutive.
    cbn [andb]. apply andb_comm. }
  assert (Et : count_of
                 (fun c => (ascii_letter c || is_arabic c) &&
                           negb (is_decimal c) &&
                           negb (negb (is_word c || is_space c))) text
               = (count_of ascii_letter text + count_of arabic_letter text)%nat).
  { rewrite <- count_of_or.
    - apply count_of_ext. intros c. unfold arabic_letter.
      destruct (ascii_letter c) eqn:El.
      + destruct (ascii_letter_word c El) as [Hw Hd]. rewrite Hw, Hd.
        reflexivity.
      + cbn [orb]. destruct (is_arabic c) eqn:E; [|reflexivity].
        rewrite (is_arabic_not_space c E), orb_false_r, negb_involutive.
        cbn [andb]. apply andb_comm.
    - intros c. unfold arabic_letter. destruct (is_arabic c) eqn:E.
      + rewrite (is_arabic_not_ascii c E). reflexivity.
      + cbn [andb]. apply andb_false_r. }
  rewrite Ea, Et.
  destruct (Nat.eqb_spec (count_of ascii_letter text +
                          count_of arabic_letter text) 0) as [Hz|Hz].
  - symmetry. apply Nat.ltb_ge. lia.
  - destruct (Nat.ltb_spec (count_of ascii_letter text)
                (count_of arabic_letter text));
      [apply Nat.ltb_lt|apply Nat.ltb_ge]; lia.
Qed.

End MajorityFacts.

(** ** Rewriting: what is left alone *)

Section FrameFacts.
Context {ud : UnicodeData}.

Lemma insert_desc_perm x l : insert_desc x l ≡ₚ x :: l.
Proof.
  induction l as [|y l IH]; simpl; [reflexivity|].
  destruct (line_number x <? line_number y); [|reflexivity].
  rewrite IH. apply Permutation_swap.
Qed.

Lemma sorted_desc_perm l : sorted_desc l ≡ₚ l.
Proof.
  induction l as [|x l IH]; simpl; [reflexivity|].
  rewrite insert_desc_perm, IH. reflexivity.
Qed.

Lemma rewrite_lines_frame items :
  forall lines lines',
  rewrite_lines items lines = Some lines' ->
  length lines' = length lines /\
  forall i,
    (forall t, t ∈ items -> rewritable t = true ->
               line_number t <> Z.of_nat i + 1) ->
    lines' !! i = lines !! i.
Proof.
  induction items as [|t ts IH]; intros lines lines' H; cbn [rewrite_lines] in H.
  - injection H as <-. split; [reflexivity|]. reflexivity.
  - assert (Hskip : rewrite_lines ts lines = Some lines' ->
              length lines' = length lines /\
              forall i,
                (forall t0, t0 ∈ t :: ts -> rewritable t0 = true ->
                            line_number t0 <> Z.of_nat i + 1) ->
                lines' !! i = lines !! i).
    { intros H'. apply IH in H' as [Hl Hf]. split; [exact Hl|].
      intros i Hi. apply Hf. intros t0 Ht0. apply Hi.
      apply elem_of_cons. right. exact Ht0. }
    destruct (rewritable t) eqn:Hr; [|exact (Hskip H)].
    destruct ((0 <=? line_number t - 1) && (line_number t - 1 <? len lines))
      eqn:Hin; [|exact (Hskip H)].
    destruct (lines !! Z.to_nat (line_number t - 1)) as [line|];
      [|exact (Hskip H)].
    destruct (update_line_translation line (original_value t)
                (translated_value t) (pattern_used t)) as [updated|];
      [|discriminate].
    destruct (bool_decide (updated ≠ line)); [|exact (Hskip H)].
    apply IH in H as [Hl Hf]. rewrite length_insert in Hl.
    split; [exact Hl|]. intros i Hi.
    rewrite Hf.
    + apply list_lookup_insert_ne. intros E.
      apply andb_true_iff in Hin as [H0 _]. apply Z.leb_le in H0.
      apply (Hi t); [apply elem_of_cons; left; reflexivity|exact Hr|lia].
    + intros t0 Ht0. apply Hi. apply elem_of_cons. right. exact Ht0.
Qed.

(** X1. When rebuilding succeeds, the list of lines keeps its length and
    every line that no rewritable item addresses is the line of the
    content. *)
Theorem rebuild_frame (content : str) (items : list TranslationItem)
    (lines' : list str) :
  rewrite_lines (sorted_desc items) (split_on LF content) = Some lines' ->
  build_new_content content items = Some (join_on LF lines') /\
  length lines' = length (split_on LF content) /\
  forall i,
    (forall t, t ∈ items -> rewritable t = true ->
               line_number t <> Z.of_nat i + 1) ->
    lines' !! i = split_on LF content !! i.
Proof.
  intros H. split; [unfold build_new_content; rewrite H; reflexivity|].
  apply rewrite_lines_frame in H as [Hl Hf]. split; [exact Hl|].
  intros i Hi. apply Hf. intros t Ht. apply Hi.
  rewrite <- (sorted_desc_perm items). exact Ht.
Qed.

Lemma match_patterns_item line_no raw line i patterns t :
  t ∈ match_patterns line_no raw line i patterns ->
  exists j m, translation_item line_no raw j m = Some t.
Proof.
  revert i. induction patterns as [|p ps IH]; intros i Ht; simpl in Ht.
  - inversion Ht.
  - apply elem_of_app in Ht as [Ht|Ht]; [|eapply IH; exact Ht].
    apply list_elem_of_omap in Ht as (m & _ & Hm). eauto.
Qed.

Lemma translation_item_fields line_no raw j m t :
  translation_item line_no raw j m = Some t ->
  line_number t = line_no /\ original_line t = raw /\
  translated_value t = original_value t /\
  translation_type t = u "none" /\
  needs_translation t = needs_translation_of (original_value t) /\
  is_translated t = has_arabic_content (original_value t) /\
  is_valid_translation_pair (key t) (original_value t) = true.
Proof.
  unfold translation_item.
  destruct (is_valid_translation_pair _ _) eqn:E; [|discriminate].
  intros [= <-]. cbn. repeat split. exact E.
Qed.

Lemma standard_lines_origin lines start t :
  t ∈ standard_lines start lines ->
  exists i line j m,
    lines !! i = Some line /\ skipped_line line = false /\
    translation_item (start + Z.of_nat i) (strip line) j m = Some t.
Proof.
  revert start. induction lines as [|l ls IH]; intros start Ht; simpl in Ht.
  - inversion Ht.
  - apply elem_of_app in Ht as [Ht|Ht].
    + exists 0%nat, l. unfold standard_line in Ht.
      destruct (skipped_line l) eqn:Hs; [inversion Ht|].
      apply match_patterns_item in Ht as (j & m & Hm).
      exists j, m. rewrite Z.add_0_r. auto.
    + apply IH in Ht as (i & line & j & m & Hi & Hs & Hm).
      exists (S i), line, j, m. split; [exact Hi|]. split; [exact Hs|].
      replace (start + Z.of_nat (S i)) with (start + 1 + Z.of_nat i) by lia.
      exact Hm.
Qed.

Lemma chunk_lines_origin lines start t :
  t ∈ process_lines_chunk lines start optimized_patterns ->
  exists i line j m,
    lines !! i = Some line /\ skipped_line line = false /\
    translation_item (start + Z.of_nat i + 1) (firstn 500 (strip line)) j m
      = Some t.
Proof.
  revert start. induction lines as [|l ls IH]; intros start Ht; simpl in Ht.
  - inversion Ht.
  - apply elem_of_app in Ht as [Ht|Ht].
    + exists 0%nat, l. unfold chunk_line in Ht.
      destruct (skipped_line l) eqn:Hs; [inversion Ht|].
      destruct (1000 <? len l); [inversion Ht|].
      apply match_patterns_item in Ht as (j & m & Hm).
      exists j, m. rewrite Z.add_0_r. auto.
    + apply IH in Ht as (i & line & j & m & Hi & Hs & Hm).
      exists (S i), line, j, m. split; [exact Hi|]. split; [exact Hs|].
      replace (start + Z.of_nat (S i) + 1) with (start + 1 + Z.of_nat i + 1)
        by lia.
      exact Hm.
Qed.

(** Every extracted item was built from a match on a line of the source
    that is neither blank nor a comment, and carries the number of that
    line, counted from 1. *)
Lemma extract_translations_origin source t :
  t ∈ extract_translations source ->
  exists i line raw j m,
    split_on LF source !! i = Some line /\ skipped_line line = false /\
    (raw = strip line \/ raw = firstn 500 (strip line)) /\
    translation_item (Z.of_nat i + 1) raw j m = Some t.
Proof.
  unfold extract_translations, extract_translations_optimized,
    extract_translations_standard, deduplicate_translations.
  destruct (100000 <? len source); intros Ht.
  - eapply elem_of_sublist in Ht; [|apply deduplicate_from_sublist].
    rewrite process_chunks_all in Ht by lia.
    apply chunk_lines_origin in Ht as (i & line & j & m & Hi & Hs & Hm).
    exists i, line, (firstn 500 (strip line)), j, m.
    rewrite Z.add_0_l in Hm. auto.
  - apply standard_lines_origin in Ht as (i & line & j & m & Hi & Hs & Hm).
    exists i, line, (strip line), j, m.
    replace (Z.of_nat i + 1) with (1 + Z.of_nat i) by lia. auto.
Qed.

(** X2. Every extracted item carries the number, counted from 1, of a line
    of the source that is neither blank nor a comment, and its stored line
    is that line trimmed (cut to 500 characters in the large-source
    mode). *)
Theorem extraction_line_fidelity (source : str) (t : TranslationItem) :
  t ∈ extract_translations source ->
  exists line,
    1 <= line_number t /\
    split_on LF source !! Z.to_nat (line_number t - 1) = Some line /\
    skipped_line line = false /\
    (original_line t = strip line \/
     original_line t = firstn 500 (strip line)).
Proof.
  intros Ht.
  apply extract_translations_origin in Ht
    as (i & line & raw & j & m & Hi & Hs & Hraw & Hm).
  apply translation_item_fields in Hm as (Hn & Hl & _).
  exists line. rewrite Hn, Hl.
  replace (Z.to_nat (Z.of_nat i + 1 - 1)) with i by lia.
  split; [lia|]. split; [exact Hi|]. split; [exact Hs|].
  destruct Hraw as [->| ->]; auto.
Qed.

Lemma extracted_items_valid_helper source :
  Forall (fun t =>
            translated_value t = original_value t /\
            needs_translation t = needs_translation_of (original_value t))
    (extract_translations source).
Proof.
  apply Forall_forall. intros t Ht.
  apply extract_translations_origin in Ht
    as (i & line & raw & j & m & _ & _ & _ & Hm).
  apply translation_item_fields in Hm as (_ & _ & Ht & _ & Hn & _).
  auto.
Qed.

(** X3. Every extracted item has a non-empty key of at most 100 characters
    and a non-empty value of at most 500, starts with its translated value
    equal to the original one and with type [none], and its flags are the
    classifier's answers on the original value. *)
Theorem extracted_items_valid (source : str) :
  Forall (fun t =>
            key t <> [] /\ original_value t <> [] /\
            len (key t) <= 100 /\ len (original_value t) <= 500 /\
            translated_value t = original_value t /\
            translation_type t = u "none" /\
            needs_translation t = needs_translation_of (original_value t) /\
            is_translated t = has_arabic_content (original_value t))
    (extract_translations source).
Proof.
  apply Forall_forall. intros t Ht.
  apply extract_translations_origin in Ht
    as (i & line & raw & j & m & _ & _ & _ & Hm).
  apply translation_item_fields in Hm as (_ & _ & Ht & Hty & Hn & Hi & Hv).
  unfold is_valid_translation_pair in Hv.
  destruct (bool_decide_reflect (key t = [])) as [|Hk]; [discriminate|].
  destruct (bool_decide_reflect (original_value t = [])) as [|Ho];
    [discriminate|].
  cbn [orb] in Hv.
  destruct (100 <? len (key t)) eqn:E1; [discriminate|].
  destruct (500 <? len (original_value t)) eqn:E2; [discriminate|].
  apply Z.ltb_ge in E1, E2. auto 10.
Qed.

End FrameFacts.

(** ** The classifiers together *)

Lemma count_of_rev q (s : str) : count_of q (rev s) = count_of q s.
Proof.
  unfold count_of. induction s as [|c s IH]; simpl; [reflexivity|].
  rewrite List.filter_app, length_app, IH. simpl.
  destruct (q c); simpl; lia.
Qed.

Lemma count_of_lstrip q s :
  (forall c, q c = true -> is_space c = false) ->
  count_of q (lstrip s) = count_of q s.
Proof.
  intros Hq. unfold count_of. induction s as [|c s IH]; simpl; [reflexivity|].
  destruct (is_space c) eqn:E; [|reflexivity].
  rewrite IH. destruct (q c) eqn:Ec; [|reflexivity].
  apply Hq in Ec. congruence.
Qed.

Lemma count_of_strip q s :
  (forall c, q c = true -> is_space c = false) ->
  count_of q (strip s) = count_of q s.
Proof.
  intros Hq. unfold strip, rstrip.
  rewrite count_of_rev, count_of_lstrip, count_of_rev by exact Hq.
  apply count_of_lstrip, Hq.
Qed.

Section ClassifiersTogether.
Context {ud : UnicodeData}.

Lemma arabic_letter_not_space c : arabic_letter c = true -> is_space c = false.
Proof.
  unfold arabic_letter. intros H.
  apply andb_true_iff in H as [H _]. apply andb_true_iff in H as [H _].
  apply is_arabic_not_space, H.
Qed.

Lemma has_arabic_content_strip text :
  has_arabic_content (strip text) = has_arabic_content text.
Proof.
  rewrite !has_arabic_content_counts.
  rewrite (count_of_strip ascii_letter) by exact ascii_letter_not_space.
  rewrite (count_of_strip arabic_letter) by exact arabic_letter_not_space.
  reflexivity.
Qed.

(** X4. The majority-script test holds exactly when the Arabic letters of
    the text (characters of the three Arabic ranges that are word characters
    and not digits) outnumber its Latin letters; every other character is
    ignored. *)
Theorem majority_script_test (text : str) :
  has_arabic_content text = true <->
  (count_of ascii_letter text < count_of arabic_letter text)%nat.
Proof. rewrite has_arabic_content_counts. apply Nat.ltb_lt. Qed.

(** X5. The majority-script test does not see surrounding white space, fails
    on a text without Arabic characters, and a text that passes it holds an
    Arabic character ([is_arabic_text]). *)
Theorem majority_script_consequences (text : str) :
  has_arabic_content (strip text) = has_arabic_content text /\
  (existsb is_arabic text = false -> has_arabic_content text = false) /\
  (has_arabic_content text = true -> is_arabic_text text = true).
Proof.
  split; [apply has_arabic_content_strip|].
  assert (H : has_arabic_content text = true -> existsb is_arabic text = true).
  { rewrite has_arabic_content_counts. intros H. apply Nat.ltb_lt in H.
    assert (Hp : (0 <? count_of arabic_letter text)%nat = true)
      by (apply Nat.ltb_lt; lia).
    rewrite count_of_existsb in Hp.
    apply existsb_exists in Hp as (c & Hin & Hc).
    apply existsb_exists. exists c. split; [exact Hin|].
    unfold arabic_letter in Hc.
    apply andb_true_iff in Hc as [Hc _]. apply andb_true_iff in Hc as [Hc _].
    exact Hc. }
  split.
  - intros Hn. destruct (has_arabic_content text); [|reflexivity].
    rewrite H in Hn by reflexivity. discriminate.
  - intros Ht. apply H in Ht. unfold is_arabic_text.
    destruct text as [|c text]; [discriminate|].
    unfold re_search. rewrite search_plus. exact Ht.
Qed.


(** X7. A text needs translation only if, once trimmed, it has at least two
    characters and is not made of digits, it holds a Latin letter and an
    alphabetic word, and it fails the majority-script test. *)
Theorem needs_translation_requires (text : str) :
  needs_translation_of text = true ->
  2 <= len (strip text) /\ isdigit (strip text) = false /\
  Exists (fun c => ascii_letter c = true) text /\
  (0 < count_matches word_pattern (strip text))%nat /\
  has_arabic_content text = false.
Proof.
  rewrite needs_translation_unfold. intros H.
  apply andb_true_iff in H as [H1 H2]. apply negb_true_iff in H1.
  apply andb_true_iff in H2 as [H2 H3].
  unfold excluded in H1. repeat (apply orb_false_iff in H1 as [H1 ?]).
  apply Z.ltb_ge in H1. apply Nat.ltb_lt in H3.
  split; [lia|]. split; [assumption|].
  split; [apply List.Exists_exists, existsb_exists; exact H2|].
  split; [exact H3|].
  rewrite <- has_arabic_content_strip. assumption.
Qed.

End ClassifiersTogether.

(** ** The cache, again *)

Section CacheMoreFacts.
Context {ud : UnicodeData}.


End CacheMoreFacts.

(** ** Statistics *)

Lemma filter_and_length {A} (p q : A -> bool) (l : list A) :
  length (List.filter p l)
  = (length (List.filter (fun x => p x && q x) l) +
     length (List.filter (fun x => p x && negb (q x)) l))%nat.
Proof.
  induction l as [|x l IH]; simpl; [reflexivity|].
  destruct (p x), (q x); simpl; lia.
Qed.

Lemma filter_length_le {A} (p : A -> bool) (l : list A) :
  (length (List.filter p l) <= length l)%nat.
Proof. induction l as [|x l IH]; simpl; [lia|]. destruct (p x); simpl; lia. Qed.

Lemma filter_disjoint_length {A} (p q : A -> bool) (l : list A) :
  (forall x, p x && q x = false) ->
  (length (List.filter p l) + length (List.filter q l) <= length l)%nat.
Proof.
  intros H. induction l as [|x l IH]; simpl; [lia|].
  specialize (H x). destruct (p x), (q x); simpl in *; try discriminate; lia.
Qed.

Section StoreFacts.
Context {ud : UnicodeData}.
Variable int_percent : nat -> nat -> Z.

(** X9. In the statistics of a handler, [remaining] is the number of items
    [get_untranslated_items] returns; the translated items are among those
    that need translation, which are among all items; the automatic and the
    manual translations together are no more than all items; and the
    progress is 100 when no item needs translation. *)
Theorem statistics_counts (h : PHPFileHandler) :
  let st := get_statistics int_percent h in
  remaining st = len (get_untranslated_items h) /\
  0 <= stat_translated st <= stat_needs_translation st /\
  stat_needs_translation st <= total_items st /\
  auto_translated st + manual_translated st <= total_items st /\
  (stat_needs_translation st = 0 -> progress_percentage st = 100).
Proof.
  cbv zeta. unfold get_statistics, get_untranslated_items, len.
  cbn [remaining stat_translated stat_needs_translation total_items
       auto_translated manual_translated progress_percentage].
  pose proof (filter_and_length needs_translation
                (fun item => has_arabic_content (translated_value item))
                (translations h)) as Hsplit.
  cbv beta in Hsplit.
  pose proof (filter_length_le needs_translation (translations h)) as Hle.
  split; [lia|]. split; [lia|]. split; [lia|].
  split.
  - pose proof (filter_disjoint_length
                  (fun item => bool_decide (translation_type item = u "auto")
                               && has_arabic_content (translated_value item))
                  (fun item => bool_decide (translation_type item = u "manual")
                               && has_arabic_content (translated_value item))
                  (translations h)) as Hd.
    cbv beta in Hd. 
    assert (Hx : forall x : TranslationItem,
               bool_decide (translation_type x = u "auto") &&
               has_arabic_content (translated_value x) &&
               (bool_decide (translation_type x = u "manual") &&
                has_arabic_content (translated_value x)) = false).
    { intros x.
      destruct (bool_decide_reflect (translation_type x = u "auto")) as [E|];
        [|reflexivity].
      rewrite E. rewrite (bool_decide_eq_false_2 (u "auto" = u "manual"))
        by (vm_compute; discriminate).
      cbn [andb]. apply andb_false_r. }
    specialize (Hd Hx). lia.
  - intros Hz. unfold get_translation_progress, count_items.
    assert (E : length (List.filter needs_translation (translations h)) = 0%nat)
      by lia.
    rewrite E. reflexivity.
Qed.

Lemma find_duplicates_from_count items :
  forall seen_items : gmap str TranslationItem,
  (length (find_duplicates_from seen_items items) +
   size (dom seen_items ∪ list_to_set (normal_original <$> items)
         : gset str))%nat
  = (length items + size (dom seen_items : gset str))%nat.
Proof.
  induction items as [|item items IH]; intros sn; cbn [find_duplicates_from].
  - rewrite fmap_nil. cbn [list_to_set foldr]. rewrite union_empty_r_L.
    reflexivity.
  - cbv zeta. fold (normal_original item).
    rewrite fmap_cons, list_to_set_cons.
    destruct (sn !! normal_original item) as [first|] eqn:E.
    + cbn [length]. specialize (IH sn).
      assert (Hin : normal_original item ∈ (dom sn : gset str))
        by (apply elem_of_dom; eauto).
      replace (dom sn ∪ ({[normal_original item]} ∪
                 list_to_set (normal_original <$> items)) : gset str)
        with (dom sn ∪ list_to_set (normal_original <$> items) : gset str).
      * lia.
      * apply leibniz_equiv. intros x.
        rewrite !elem_of_union, elem_of_singleton.
        split; [tauto|]. intros [?|[->|?]]; tauto.
    + specialize (IH (<[normal_original item := item]> sn)).
      rewrite dom_insert_L in IH.
      assert (Hnot : normal_original item ∉ (dom sn : gset str))
        by (apply not_elem_of_dom; exact E).
      rewrite (size_union {[normal_original item]} (dom sn)) in IH
        by (apply disjoint_singleton_l; exact Hnot).
      rewrite size_singleton in IH.
      replace (dom sn ∪ ({[normal_original item]} ∪
                 list_to_set (normal_original <$> items)) : gset str)
        with ({[normal_original item]} ∪ dom sn ∪
              list_to_set (normal_original <$> items) : gset str).
      * cbn [length]. lia.
      * apply leibniz_equiv. intros x.
        rewrite !elem_of_union, elem_of_singleton. tauto.
Qed.

(** X10. [find_duplicates] reports one duplicate for every item beyond the
    first of its normal form (original value lower-cased, then trimmed): the
    reports and the distinct normal forms together are as many as the
    items. *)
Theorem find_duplicates_count (h : PHPFileHandler) :
  (length (find_duplicates h) +
   size (list_to_set (normal_original <$> translations h) : gset str))%nat
  = length (translations h).
Proof.
  unfold find_duplicates.
  pose proof (find_duplicates_from_count (translations h) ∅) as H.
  rewrite dom_empty_L, union_empty_l_L, size_empty in H. lia.
Qed.

End StoreFacts.

(** ** Status and validation *)

Section StatusFacts.
Context {ud : UnicodeData}.

Lemma needs_translation_inv text :
  needs_translation_of text = true ->
  2 <= len (strip text) /\ has_arabic_content text = false.
Proof.
  rewrite needs_translation_unfold. intros H.
  apply andb_true_iff in H as [H1 _]. apply negb_true_iff in H1.
  unfold excluded in H1. repeat (apply orb_false_iff in H1 as [H1 ?]).
  apply Z.ltb_ge in H1. split; [lia|].
  rewrite <- has_arabic_content_strip. assumption.
Qed.

(** X11. The status of a pair of values is "translated" exactly when the
    translated value is not blank, differs from the original value once both
    are trimmed, and passes the majority-script test; in particular an
    unchanged value is never reported as translated. *)
Theorem translated_status (original_text translated_text : str) :
  (determine_translation_status original_text translated_text = st_translated
   <->
   strip translated_text <> [] /\
   strip original_text <> strip translated_text /\
   has_arabic_content translated_text = true) /\
  determine_translation_status original_text original_text <> st_translated.
Proof.
  assert (H1 : st_untranslated <> st_translated) by (vm_compute; discriminate).
  assert (H2 : st_not_needed <> st_translated) by (vm_compute; discriminate).
  assert (Hmain :
    determine_translation_status original_text translated_text = st_translated
    <->
    strip translated_text <> [] /\
    strip original_text <> strip translated_text /\
    has_arabic_content translated_text = true).
  { unfold determine_translation_status.
    destruct (bool_decide_reflect (translated_text = [])) as [->|Hne].
    { cbn [orb]. split; [intros H; destruct (H1 H)|].
      intros (H & _). destruct H. reflexivity. }
    destruct (bool_decide_reflect (strip translated_text = [])) as [Hs|Hs].
    { cbn [orb]. split; [intros H; destruct (H1 H)|]. tauto. }
    cbn [orb].
    destruct (bool_decide_reflect (strip original_text = strip translated_text))
      as [He|He].
    { split; [|tauto]. destruct (has_arabic_content original_text);
        intros H; [destruct (H2 H)|destruct (H1 H)]. }
    destruct (has_arabic_content translated_text).
    - split; [auto|reflexivity].
    - split; [intros H; destruct (H1 H)|]. intros (_ & _ & H). discriminate. }
  split; [exact Hmain|].
  unfold determine_translation_status.
  destruct (_ || _); [exact H1|].
  rewrite bool_decide_eq_true_2 by reflexivity.
  destruct (has_arabic_content original_text); assumption.
Qed.

Lemma validate_fresh_item t :
  translated_value t = original_value t ->
  needs_translation t = needs_translation_of (original_value t) ->
  validate_item t = if needs_translation t then [unchanged_issue t] else [].
Proof.
  intros Ht Hn. unfold validate_item. cbv zeta. rewrite Ht.
  rewrite (bool_decide_eq_false_2 (html_tags _ ≠ html_tags _))
    by (intros H; apply H; reflexivity).
  rewrite (bool_decide_eq_true_2 (lower _ = lower _)) by reflexivity.
  destruct (needs_translation t) eqn:E; [|reflexivity].
  symmetry in Hn. apply needs_translation_inv in Hn as [Hlen Ha].
  rewrite Ha.
  rewrite bool_decide_eq_false_2.
  - reflexivity.
  - intros Hs. rewrite Hs in Hlen. unfold len in Hlen. simpl in Hlen. lia.
Qed.

(** X12. Validating a source that was just extracted reports nothing but
    unchanged translations, one for each item that needs translation, in
    order: no empty translation and no HTML mismatch. *)
Theorem validate_after_extraction (source : str) :
  validate_translations (loaded source)
  = unchanged_issue <$> List.filter needs_translation
                          (extract_translations source).
Proof.
  unfold validate_translations, loaded. cbn [translations].
  pose proof (extracted_items_valid_helper source) as H.
  induction H as [|t ts Ht Hts IH]; [reflexivity|].
  cbn [flat_map List.filter]. rewrite IH.
  destruct Ht as (Htr & Hn).
  rewrite (validate_fresh_item t Htr Hn).
  destruct (needs_translation t); reflexivity.
Qed.

End StatusFacts.

(** ** File names *)

Section FilenameFacts.
Context {ud : UnicodeData}.

Lemma sanitize_filename_map filename :
  sanitize_filename filename
  = List.map (fun c => if forbidden_in_filename c then 95 else c) filename.
Proof.
  unfold sanitize_filename. rewrite re_sub_literal_one.
  induction filename as [|c f IH]; simpl; [reflexivity|].
  rewrite IH. destruct (forbidden_in_filename c); reflexivity.
Qed.

(** X13. [sanitize_filename] keeps the length of the name, leaves none of
    the nine forbidden characters in it, changes no other character, and
    applying it again changes nothing. *)
Theorem sanitize_filename_safe (filename : str) :
  length (sanitize_filename filename) = length filename /\
  Forall (fun c => forbidden_in_filename c = false)
    (sanitize_filename filename) /\
  (Forall (fun c => forbidden_in_filename c = false) filename ->
   sanitize_filename filename = filename) /\
  sanitize_filename (sanitize_filename filename) = sanitize_filename filename.
Proof.
  rewrite !sanitize_filename_map.
  assert (Hsafe : Forall (fun c => forbidden_in_filename c = false)
                    (List.map (fun c => if forbidden_in_filename c then 95
                                        else c) filename)).
  { induction filename as [|c f IH]; simpl; constructor; [|exact IH].
    destruct (forbidden_in_filename c) eqn:E; [reflexivity|exact E]. }
  assert (Hid : forall l, Forall (fun c => forbidden_in_filename c = false) l ->
                List.map (fun c => if forbidden_in_filename c then 95 else c) l
                = l).
  { intros l H. induction H as [|c l Hc Hl IH]; simpl; [reflexivity|].
    rewrite Hc, IH. reflexivity. }
  split; [apply length_map|]. split; [exact Hsafe|].
  split; [apply Hid|apply Hid, Hsafe].
Qed.

End FilenameFacts.

(** ** Updates together *)

Section UpdatesTogether.
Context {ud : UnicodeData}.

Lemma update_translation_len h index text tag :
  len (translations (update_translation h index text tag).1)
  = len (translations h).
Proof.
  unfold update_translation, len.
  destruct (_ && _); [|reflexivity]. cbn [fst translations].
  rewrite length_alter. reflexivity.
Qed.

(** X14. Updates of two different items can be made in either order, and
    repeating an update changes nothing more. *)
Theorem update_translation_independent (h : PHPFileHandler) (i j : Z)
    (a ta b tb : str) :
  (i <> j ->
   (update_translation (update_translation h i a ta).1 j b tb).1
   = (update_translation (update_translation h j b tb).1 i a ta).1) /\
  update_translation (update_translation h i a ta).1 i a ta
  = update_translation h i a ta.
Proof.
  split.
  - intros Hij.
    unfold update_translation at 1 3.
    rewrite !update_translation_len.
    unfold update_translation.
    destruct ((0 <=? i) && (i <? len (translations h))) eqn:Ei;
      destruct ((0 <=? j) && (j <? len (translations h))) eqn:Ej;
      cbn [fst translations file_path original_content modified encoding];
      try reflexivity.
    f_equal. apply andb_true_iff in Ei as [Ei _], Ej as [Ej _].
    apply Z.leb_le in Ei, Ej.
    apply list_eq. intros k. rewrite !list_lookup_alter.
    repeat case_decide; subst; try lia;
      rewrite ?list_lookup_alter_eq, ?list_lookup_alter_ne by lia;
      try reflexivity.
  - unfold update_translation at 1. rewrite update_translation_len.
    unfold update_translation.
    destruct ((0 <=? i) && (i <? len (translations h))) eqn:Ei;
      [|reflexivity].
    cbn [fst translations file_path original_content modified encoding].
    f_equal. f_equal. rewrite list_alter_alter_eq.
    apply list_alter_ext; [|reflexivity]. intros x _. reflexivity.
Qed.

End UpdatesTogether.

(** ** Loading, when it succeeds *)

Section LoadingSuccess.
Context {ud : UnicodeData}.
Variable fs : FileSystem.

Lemma read_first_ok path candidates content enc :
  read_first fs path candidates = inr (content, enc) <->
  (exists before after,
     candidates = before ++ enc :: after /\
     Forall (fun e => read_text fs path e = UnicodeDecodeError) before /\
     read_text fs path enc = ReadOk content).
Proof.
  induction candidates as [|e cs IH]; simpl.
  - split; [discriminate|]. intros (b & a & E & _). destruct b; discriminate.
  - destruct (read_text fs path e) eqn:Er.
    + split.
      * intros [= <- <-]. exists [], cs. split; [reflexivity|].
        split; [constructor|exact Er].
      * intros (b & a & E & Hb & Hr). destruct b as [|e' b].
        -- injection E as -> ->. rewrite Er in Hr. injection Hr as ->.
           reflexivity.
        -- injection E as -> ->. inversion Hb; subst. congruence.
    + rewrite IH. split.
      * intros (b & a & -> & Hb & Hr). exists (e :: b), a.
        split; [reflexivity|]. split; [constructor; assumption|exact Hr].
      * intros (b & a & E & Hb & Hr). destruct b as [|e' b].
        -- injection E as -> ->. congruence.
        -- injection E as -> ->. inversion Hb; subst. eauto.
    + split; [discriminate|].
      intros (b & a & E & Hb & Hr). destruct b as [|e' b].
      * injection E as -> ->. congruence.
      * injection E as -> ->. inversion Hb; subst. congruence.
Qed.

(** X15. [load_file] succeeds exactly when the path exists, its lower-cased
    suffix is [.php] and some candidate encoding reads the file, every
    candidate before it having raised a decode error; the handler then
    holds the text read with that first encoding, the items extracted from
    it, and is not modified. *)
Theorem load_file_success (path : str) (h : PHPFileHandler) :
  load_file fs path = inr h <->
  path_exists fs path = true /\
  lower (path_suffix fs path) = u ".php" /\
  (exists content enc before after,
     encodings = before ++ enc :: after /\
     Forall (fun e => read_text fs path e = UnicodeDecodeError) before /\
     read_text fs path enc = ReadOk content /\
     h = {| file_path := Some path;
            original_content := content;
            translations := extract_translations content;
            modified := false;
            encoding := enc |}).
Proof.
  unfold load_file, load_file_body.
  destruct (path_exists fs path); cbn [negb].
  2:{ split; [discriminate|]. intros [H _]. discriminate. }
  destruct (decide (lower (path_suffix fs path) = u ".php")) as [Hs|Hs].
  2:{ rewrite bool_decide_eq_true_2 by exact Hs.
      split; [discriminate|]. intros (_ & H & _). contradiction. }
  rewrite bool_decide_eq_false_2 by (intros Hn; exact (Hn Hs)).
  destruct (read_first fs path encodings) as [e|[content enc]] eqn:Hr.
  - split; [discriminate|].
    intros (_ & _ & content & enc & b & a & E & Hb & Hread & _).
    assert (Hok : read_first fs path encodings = inr (content, enc))
      by (apply read_first_ok; eauto).
    congruence.
  - apply read_first_ok in Hr as (b & a & E & Hb & Hread).
    split.
    + intros [= <-]. split; [reflexivity|]. split; [exact Hs|].
      exists content, enc, b, a. auto.
    + intros (_ & _ & content' & enc' & b' & a' & E' & Hb' & Hread' & ->).
      assert (H1 : read_first fs path encodings = inr (content, enc))
        by (apply read_first_ok; eauto).
      assert (H2 : read_first fs path encodings = inr (content', enc'))
        by (apply read_first_ok; eauto).
      rewrite H1 in H2. injection H2 as <- <-. reflexivity.
Qed.

End LoadingSuccess.

(** ** Removing duplicates, again *)

Section DedupFacts.
Context {ud : UnicodeData}.

Lemma deduplicate_from_id seen_keys l :
  NoDup (unique_key <$> l) ->
  (forall t, t ∈ l -> unique_key t ∉ seen_keys) ->
  deduplicate_from seen_keys l = l.
Proof.
  revert seen_keys. induction l as [|x l IH]; intros sk Hnd Hf; simpl;
    [reflexivity|].
  rewrite fmap_cons in Hnd. apply NoDup_cons in Hnd as [Hx Hnd].
  rewrite bool_decide_eq_false_2
    by (apply Hf, elem_of_cons; left; reflexivity).
  f_equal. apply IH; [exact Hnd|].
  intros t Ht Hin. apply elem_of_union in Hin as [Hin|Hin].
  - apply elem_of_singleton in Hin. apply Hx. rewrite <- Hin.
    apply list_elem_of_fmap. exists t. split; [reflexivity|exact Ht].
  - apply (Hf t); [apply elem_of_cons; right; exact Ht|exact Hin].
Qed.

(** X16. Removing duplicates a second time removes nothing, and a list in
    which no two items share their lower-cased key and value is returned as
    it is. *)
Theorem deduplicate_translations_idempotent (l : list TranslationItem) :
  deduplicate_translations (deduplicate_translations l)
  = deduplicate_translations l /\
  (NoDup (unique_key <$> l) -> deduplicate_translations l = l).
Proof.
  unfold deduplicate_translations. split.
  - apply deduplicate_from_id; [apply deduplicate_from_NoDup|].
    intros t _. apply not_elem_of_empty.
  - intros H. apply deduplicate_from_id; [exact H|].
    intros t _. apply not_elem_of_empty.
Qed.

End DedupFacts.

(** ** Replacement templates *)

Lemma startswith_nil s : startswith s [] = true.
Proof. destruct s; reflexivity. Qed.

Lemma replace_single q new s :
  replace [q] new s = flat_map (fun c => if c =? q then new else [c]) s.
Proof.
  unfold replace. induction s as [|c s IH]; [reflexivity|].
  cbn [replace_from startswith flat_map length Nat.sub].
  rewrite startswith_nil, andb_true_r, Z.eqb_sym.
  destruct (c =? q); rewrite IH; reflexivity.
Qed.

Lemma flat_map_flat_map {A B C} (f : A -> list B) (g : B -> list C) l :
  flat_map g (flat_map f l) = flat_map (fun x => flat_map g (f x)) l.
Proof.
  induction l as [|x l IH]; simpl; [reflexivity|].
  rewrite flat_map_app, IH. reflexivity.
Qed.

Lemma new_value_safe_escape new_value :
  replace [quote2] [backslash; quote2]
    (replace [quote1] [backslash; quote1] new_value)
  = flat_map escape_quote new_value.
Proof.
  rewrite !replace_single, flat_map_flat_map.
  apply flat_map_ext. intros c. unfold escape_quote.
  destruct (c =? quote1) eqn:E1.
  - reflexivity.
  - cbn [flat_map]. rewrite app_nil_r. destruct (c =? quote2); reflexivity.
Qed.

Section TemplateFacts.
Context {ud : UnicodeData}.

Lemma add_chars_some cs tl l :
  tl = Some l -> add_chars cs tl = Some (List.map TChar cs ++ l).
Proof. intros ->. reflexivity. Qed.

(** An escaped value is a literal of the template. *)
Lemma parse_template_escaped ngroups tail tl :
  (forall fuel, (length tail <= fuel)%nat ->
                parse_template ngroups fuel tail = Some tl) ->
  forall new_value fuel,
  Forall (fun c => c <> backslash) new_value ->
  (length (flat_map escape_quote new_value ++ tail) <= fuel)%nat ->
  parse_template ngroups fuel (flat_map escape_quote new_value ++ tail)
  = Some (List.map TChar (flat_map escape_quote new_value) ++ tl).
Proof.
  intros Htail new_value. induction new_value as [|c nv IH];
    intros fuel Hnb Hlen.
  - apply Htail. exact Hlen.
  - inversion Hnb as [|? ? Hc Hnb']; subst.
    cbn [flat_map] in *. rewrite <- app_assoc in *.
    destruct (Z.eqb_spec c quote1) as [->|H1];
      [|destruct (Z.eqb_spec c quote2) as [->|H2]].
    + change (escape_quote quote1) with [backslash; quote1] in *.
      cbn [app length] in Hlen. destruct fuel as [|fuel]; [lia|].
      cbn [app parse_template]. cbn.
      rewrite (IH fuel Hnb') by lia. reflexivity.
    + change (escape_quote quote2) with [backslash; quote2] in *.
      cbn [app length] in Hlen. destruct fuel as [|fuel]; [lia|].
      cbn [app parse_template]. cbn.
      rewrite (IH fuel Hnb') by lia. reflexivity.
    + assert (E : escape_quote c = [c]).
      { unfold escape_quote.
        destruct (Z.eqb_spec c quote1); [contradiction|].
        destruct (Z.eqb_spec c quote2); [contradiction|]. reflexivity. }
      rewrite E in *.
      cbn [app length] in Hlen. destruct fuel as [|fuel]; [lia|].
      cbn [app parse_template].
      replace (c =? 92) with false
        by (symmetry; apply Z.eqb_neq; exact Hc).
      cbn [negb]. rewrite (IH fuel Hnb') by lia. reflexivity.
Qed.

End TemplateFacts.

Section TemplateUse.
Context {ud : UnicodeData}.

Lemma parse_group_reference ngroups fuel d t2 :
  ascii_digit d = false ->
  parse_template ngroups (S fuel) (backslash :: 49 :: d :: t2)
  = add_group ngroups 1 (parse_template ngroups fuel (d :: t2)).
Proof.
  intros Hd. cbn [parse_template]. unfold backslash.
  change (negb (92 =? 92)) with false. cbv iota.
  change (49 =? 103) with false. change (49 =? 48) with false.
  change (ascii_digit 49) with true. cbv iota. rewrite Hd. reflexivity.
Qed.

Lemma escaped_head new_value q :
  plain_value new_value -> ascii_digit q = false ->
  exists d t2, flat_map escape_quote new_value ++ [q] = d :: t2 /\
               ascii_digit d = false.
Proof.
  intros [_ Hd] Hq. destruct new_value as [|c nv].
  - exists q, []. split; [reflexivity|exact Hq].
  - cbn [flat_map]. unfold escape_quote at 1.
    destruct (c =? quote1); [|destruct (c =? quote2)];
      cbn [app]; eexists _, _; (split; [reflexivity|]);
      try reflexivity; exact Hd.
Qed.

Lemma parse_single ngroups q fuel :
  q <> backslash -> (length [q] <= fuel)%nat ->
  parse_template ngroups fuel [q] = Some [TChar q].
Proof.
  intros Hq Hf. destruct fuel as [|fuel]; [simpl in Hf; lia|].
  cbn [parse_template]. unfold backslash in Hq.
  replace (q =? 92) with false by (symmetry; apply Z.eqb_neq; exact Hq).
  cbn [negb]. destruct fuel; reflexivity.
Qed.

Lemma parse_nil ngroups fuel : parse_template ngroups fuel [] = Some [].
Proof. destruct fuel; reflexivity. Qed.

(** The template of a quoted-pair replacement, for a plain value. *)
Lemma group_template_parses ngroups new_value q :
  (1 <= ngroups)%nat -> plain_value new_value ->
  q <> backslash -> ascii_digit q = false ->
  let template := u "\1" ++ flat_map escape_quote new_value ++ [q] in
  parse_template ngroups (length template) template
  = Some (TGroup 1 :: List.map TChar (flat_map escape_quote new_value)
            ++ [TChar q]).
Proof.
  intros Hn Hp Hq Hqd template. subst template.
  change (u "\1") with [backslash; 49]. cbn [app length].
  destruct (escaped_head new_value q Hp Hqd) as (d & t2 & E & Hd).
  rewrite E at 1 2. rewrite parse_group_reference by exact Hd.
  rewrite <- E.
  rewrite (parse_template_escaped ngroups [q] [TChar q]).
  - unfold add_group. apply Nat.leb_le in Hn. rewrite Hn. reflexivity.
  - intros fuel Hf. apply parse_single; assumption.
  - apply Hp.
  - lia.
Qed.

Lemma literal_template_parses ngroups new_value :
  plain_value new_value ->
  let template := flat_map escape_quote new_value in
  parse_template ngroups (length template) template
  = Some (List.map TChar template).
Proof.
  intros Hp template. subst template.
  pose proof (parse_template_escaped ngroups [] []
                (fun fuel _ => parse_nil ngroups fuel)
                new_value (length (flat_map escape_quote new_value))
                (proj1 Hp)) as H.
  rewrite !app_nil_r in H. apply H. lia.
Qed.

Lemma try_replacements_total pairs line :
  Forall (fun pr => parse_template (count_groups pr.1) (length pr.2) pr.2
                    <> None) pairs ->
  try_replacements pairs line <> None.
Proof.
  intros H. induction H as [|[p rep] pairs Hp Hps IH];
    cbn [try_replacements]; [discriminate|].
  destruct (matched (re_search p line)); [|exact IH].
  unfold re_sub. cbn [fst snd] in Hp.
  destruct (parse_template (count_groups p) (length rep) rep);
    [|contradiction].
  destruct (bool_decide _); [discriminate|exact IH].
Qed.

(** For a plain new value [_update_line_translation] returns a line. *)
Lemma update_line_translation_total line original_value new_value index :
  plain_value new_value ->
  update_line_translation line original_value new_value index <> None.
Proof.
  intros Hp. unfold update_line_translation.
  rewrite new_value_safe_escape.
  pose proof (try_replacements_total
                (replacement_patterns original_value
                   (flat_map escape_quote new_value)) line) as H.
  destruct (try_replacements _ line) as [[l|]|].
  - discriminate.
  - destruct (contains line original_value); discriminate.
  - exfalso. apply H; [|reflexivity].
    unfold replacement_patterns.
    repeat constructor; cbn [fst snd];
      try (change (count_groups (anchored_pattern _ _ original_value))
             with 2%nat;
           rewrite group_template_parses;
           [discriminate|lia|exact Hp|discriminate|reflexivity]).
    change (count_groups [WordB; Lit original_value; WordB]) with 0%nat.
    rewrite literal_template_parses by exact Hp. discriminate.
Qed.

Lemma rewrite_lines_total items :
  Forall (fun t => plain_value (translated_value t)) items ->
  forall lines, rewrite_lines items lines <> None.
Proof.
  intros H. induction H as [|t ts Ht Hts IH]; intros lines;
    cbn [rewrite_lines]; [discriminate|].
  destruct (rewritable t); [|apply IH].
  destruct (_ && _); [|apply IH].
  destruct (lines !! _) as [line|]; [|apply IH].
  pose proof (update_line_translation_total line (original_value t)
                (translated_value t) (pattern_used t) Ht) as Hu.
  destruct (update_line_translation _ _ _ _); [|contradiction].
  destruct (bool_decide _); apply IH.
Qed.

(** X17. Rebuilding gives a text, without raising, whenever no translated
    value holds a backslash or begins with a digit. *)
Theorem rebuild_total (content : str) (items : list TranslationItem) :
  Forall (fun t => plain_value (translated_value t)) items ->
  exists new_content, build_new_content content items = Some new_content.
Proof.
  intros H. unfold build_new_content.
  pose proof (rewrite_lines_total (sorted_desc items)
                (sorted_desc_Forall _ _ H) (split_on LF content)) as Ht.
  destruct (rewrite_lines _ _) as [lines|]; [eauto|contradiction].
Qed.

End TemplateUse.

Section TemplateFailures.
Context {ud : UnicodeData}.

Lemma parse_two_digits ngroups fuel d o t3 :
  ascii_digit d = true -> oct_digit d && oct_digit o = false ->
  (ngroups < 10)%nat ->
  parse_template ngroups (S fuel) (backslash :: 49 :: d :: o :: t3) = None.
Proof.
  intros Hd Ho Hn. cbn [parse_template]. unfold backslash.
  change (negb (92 =? 92)) with false. cbv iota.
  change (49 =? 103) with false. change (49 =? 48) with false.
  change (ascii_digit 49) with true. cbv iota. rewrite Hd.
  change (oct_digit 49) with true. cbn [andb]. rewrite Ho.
  unfold add_group.
  replace (Z.to_nat (dval 49 * 10 + dval d) <=? ngroups)%nat with false;
    [reflexivity|].
  symmetry. apply Nat.leb_gt.
  unfold ascii_digit, in_range in Hd. unfold dval. lia.
Qed.

(** X18. When the line holds the original value as a quoted key followed by
    a quoted value, a translated value that begins with a digit, not
    followed by a second octal digit of an octal escape, makes
    [_update_line_translation] raise: the digit is read as part of the group
    number of the template.  When two octal digits begin the value the
    group reference is read as an octal escape instead and the quoted pair
    is lost, as on the line ['10 items' => '10 items',]. *)
Theorem digit_translation_raises (line original_value : str) (d : Z)
    (value_rest : str) (index : nat) :
  matched (re_search (anchored_pattern quote1 quote1 original_value) line)
    = true ->
  ascii_digit d = true ->
  (oct_digit d = false \/
   match value_rest with o :: _ => oct_digit o = false | [] => True end) ->
  update_line_translation line original_value (d :: value_rest) index = None
  /\
  update_line_translation ten_items_line ten_items ten_anasir 0
    = Some (u "H " ++ [1593; 1606; 1575; 1589; 1585] ++ u "',").
Proof.
  intros Hm Hd Ho. split; [|vm_compute; reflexivity].
  unfold update_line_translation. rewrite new_value_safe_escape.
  unfold replacement_patterns. cbn [try_replacements]. rewrite Hm.
  unfold re_sub.
  change (count_groups (anchored_pattern quote1 quote1 original_value))
    with 2%nat.
  assert (Ed : escape_quote d = [d]).
  { unfold escape_quote, ascii_digit, in_range, quote1, quote2 in *.
    destruct (Z.eqb_spec d 39); [lia|].
    destruct (Z.eqb_spec d 34); [lia|]. reflexivity. }
  cbn [flat_map]. rewrite Ed. change (u "\1") with [backslash; 49].
  assert (Hh : exists o t3,
             flat_map escape_quote value_rest ++ [quote1] = o :: t3 /\
             oct_digit d && oct_digit o = false).
  { destruct value_rest as [|c rest].
    - exists quote1, []. split; [reflexivity|]. apply andb_false_r.
    - cbn [flat_map]. unfold escape_quote at 1.
      destruct (Z.eqb_spec c quote1) as [->|];
        [|destruct (Z.eqb_spec c quote2) as [->|]]; cbn [app];
        eexists _, _; (split; [reflexivity|]);
        try apply andb_false_r.
      destruct Ho as [Ho|Ho]; rewrite Ho; [reflexivity|apply andb_false_r]. }
  destruct Hh as (o & t3 & E & Hoct).
  cbn [app length]. rewrite E.
  rewrite parse_two_digits by (assumption || lia). reflexivity.
Qed.

End TemplateFailures.

(** ** Similarity *)

Section SimilarityFacts.
Context {ud : UnicodeData}.

Lemma pos_of_nat_Z n : (0 < n)%nat -> Z.pos (Pos.of_nat n) = Z.of_nat n.
Proof. intros H. destruct n as [|n]; [lia|]. lia. Qed.

(** X19. The similarity of two texts does not depend on their order, lies
    between 0 and 1, and is 1 for a text with at least one word compared to
    itself. *)
Theorem similarity_properties (text1 text2 : str) :
  calculate_similarity text1 text2 = calculate_similarity text2 text1 /\
  (0 <= calculate_similarity text1 text2)%Q /\
  (calculate_similarity text1 text2 <= 1)%Q /\
  (word_set text1 <> ∅ -> (calculate_similarity text1 text1 == 1)%Q).
Proof.
  split; [|split; [|split]].
  - unfold calculate_similarity. cbv zeta.
    assert (Ei : word_set text1 ∩ word_set text2
                 = word_set text2 ∩ word_set text1)
      by (apply leibniz_equiv; intros x; rewrite !elem_of_intersection;
          tauto).
    assert (Eu : word_set text1 ∪ word_set text2
                 = word_set text2 ∪ word_set text1)
      by (apply leibniz_equiv; intros x; rewrite !elem_of_union; tauto).
    rewrite Ei, Eu, orb_comm. reflexivity.
  - unfold calculate_similarity. cbv zeta.
    destruct (_ || _); [apply Qle_refl|].
    destruct (0 <? _)%nat; [|apply Qle_refl].
    unfold Qle. simpl. lia.
  - unfold calculate_similarity. cbv zeta.
    destruct (_ || _); [discriminate|].
    destruct (0 <? _)%nat eqn:E; [|discriminate].
    apply Nat.ltb_lt in E. unfold Qle. cbn [Qnum Qden].
    rewrite pos_of_nat_Z by exact E.
    assert (Hs : (size (word_set text1 ∩ word_set text2)
                  <= size (word_set text1 ∪ word_set text2))%nat).
    { apply subseteq_size. intros x Hx.
      apply elem_of_intersection in Hx as [Hx _].
      apply elem_of_union. left. exact Hx. }
    lia.
  - intros Hne. unfold calculate_similarity. cbv zeta.
    rewrite bool_decide_eq_false_2 by exact Hne. cbn [orb].
    assert (Ei : word_set text1 ∩ word_set text1 = word_set text1)
      by (apply leibniz_equiv; intros x; rewrite !elem_of_intersection;
          tauto).
    assert (Eu : word_set text1 ∪ word_set text1 = word_set text1)
      by (apply leibniz_equiv; intros x; rewrite !elem_of_union; tauto).
    rewrite Ei, Eu.
    assert (Hpos : (0 < size (word_set text1))%nat).
    { apply Nat.neq_0_lt_0. intros Hz. apply size_empty_inv in Hz.
      apply Hne, leibniz_equiv, Hz. }
    apply Nat.ltb_lt in Hpos as Hb. rewrite Hb.
    unfold Qeq. cbn [Qnum Qden]. rewrite pos_of_nat_Z by exact Hpos. lia.
Qed.

End SimilarityFacts.

(** ** More statements at concrete inputs *)

Lemma rebuild_frame_witness :
  rewrite_lines (sorted_desc [second_line_item]) (split_on LF two_line_source)
    = Some [u "<?php"; greeting_once] /\
  [u "<?php"; greeting_once] !! 0%nat = split_on LF two_line_source !! 0%nat.
Proof.
  assert (H : rewrite_lines (sorted_desc [second_line_item])
                (split_on LF two_line_source)
              = Some [u "<?php"; greeting_once])
    by (vm_compute; reflexivity).
  split; [exact H|].
  destruct (rebuild_frame two_line_source [second_line_item] _ H)
    as (_ & _ & Hf).
  apply Hf. intros t Ht _. apply list_elem_of_singleton in Ht. subst t.
  vm_compute. discriminate.
Defined.

Lemma extraction_line_fidelity_witness :
  greeting_fresh ∈ extract_translations greeting_source /\
  exists line,
    1 <= line_number greeting_fresh /\
    split_on LF greeting_source !! Z.to_nat (line_number greeting_fresh - 1)
      = Some line /\
    skipped_line line = false /\
    (original_line greeting_fresh = strip line \/
     original_line greeting_fresh = firstn 500 (strip line)).
Proof.
  assert (H : greeting_fresh ∈ extract_translations greeting_source).
  { replace (extract_translations greeting_source) with [greeting_fresh]
      by (vm_compute; reflexivity).
    apply list_elem_of_singleton. reflexivity. }
  split; [exact H|].
  exact (extraction_line_fidelity greeting_source greeting_fresh H).
Defined.

Lemma majority_script_test_witness :
  (count_of ascii_letter marhaba < count_of arabic_letter marhaba)%nat /\
  has_arabic_content marhaba = true.
Proof.
  assert (H : (count_of ascii_letter marhaba
               < count_of arabic_letter marhaba)%nat)
    by (vm_compute; lia).
  split; [exact H|]. exact (proj2 (majority_script_test marhaba) H).
Defined.

Lemma majority_script_consequences_witness :
  existsb is_arabic (u "hello") = false /\
  has_arabic_content (u "hello") = false.
Proof.
  assert (H : existsb is_arabic (u "hello") = false) by reflexivity.
  split; [exact H|].
  exact (proj1 (proj2 (majority_script_consequences (u "hello"))) H).
Defined.


Lemma needs_translation_requires_witness :
  needs_translation_of (u "Submit Order") = true /\
  has_arabic_content (u "Submit Order") = false.
Proof.
  assert (H : needs_translation_of (u "Submit Order") = true)
    by (vm_compute; reflexivity).
  split; [exact H|].
  exact (proj2 (proj2 (proj2 (proj2
           (needs_translation_requires (u "Submit Order") H))))).
Defined.


Lemma statistics_counts_witness :
  stat_needs_translation (get_statistics (fun _ _ => 0) no_items) = 0 /\
  progress_percentage (get_statistics (fun _ _ => 0) no_items) = 100.
Proof.
  assert (H : stat_needs_translation (get_statistics (fun _ _ => 0) no_items)
              = 0) by reflexivity.
  split; [exact H|].
  exact (proj2 (proj2 (proj2 (proj2
           (statistics_counts (fun _ _ => 0) no_items)))) H).
Defined.

Lemma translated_status_witness :
  strip marhaba <> [] /\
  strip (u "hello world") <> strip marhaba /\
  has_arabic_content marhaba = true /\
  determine_translation_status (u "hello world") marhaba = st_translated.
Proof.
  assert (H1 : strip marhaba <> []) by (vm_compute; discriminate).
  assert (H2 : strip (u "hello world") <> strip marhaba)
    by (vm_compute; discriminate).
  assert (H3 : has_arabic_content marhaba = true) by (vm_compute; reflexivity).
  split; [exact H1|]. split; [exact H2|]. split; [exact H3|].
  exact (proj2 (proj1 (translated_status (u "hello world") marhaba))
           (conj H1 (conj H2 H3))).
Defined.

Lemma sanitize_filename_safe_witness :
  Forall (fun c => forbidden_in_filename c = false) (u "lang") /\
  sanitize_filename (u "lang") = u "lang".
Proof.
  assert (H : Forall (fun c => forbidden_in_filename c = false) (u "lang"))
    by (repeat constructor).
  split; [exact H|].
  exact (proj1 (proj2 (proj2 (sanitize_filename_safe (u "lang")))) H).
Defined.

Lemma update_translation_independent_witness :
  0 <> 1 /\
  (update_translation (update_translation (loaded two_line_source) 0 marhaba
                         manual).1 1 bik manual).1
  = (update_translation (update_translation (loaded two_line_source) 1 bik
                           manual).1 0 marhaba manual).1.
Proof.
  assert (H : 0 <> 1) by discriminate.
  split; [exact H|].
  exact (proj1 (update_translation_independent (loaded two_line_source) 0 1
                  marhaba manual bik manual) H).
Defined.

Lemma load_file_success_witness :
  path_exists one_file lang_php = true /\
  lower (path_suffix one_file lang_php) = u ".php" /\
  load_file one_file lang_php
  = inr {| file_path := Some lang_php;
           original_content := greeting_source;
           translations := extract_translations greeting_source;
           modified := false;
           encoding := windows_1256 |}.
Proof.
  assert (H1 : path_exists one_file lang_php = true) by reflexivity.
  assert (H2 : lower (path_suffix one_file lang_php) = u ".php")
    by reflexivity.
  split; [exact H1|]. split; [exact H2|].
  apply (proj2 (load_file_success one_file lang_php _)).
  split; [exact H1|]. split; [exact H2|].
  exists greeting_source, windows_1256, [utf_8; utf_8_sig],
    [iso_8859_1; cp1252].
  split; [reflexivity|]. split; [repeat constructor|].
  split; reflexivity.
Defined.

Lemma deduplicate_translations_idempotent_witness :
  NoDup (unique_key <$> [greeting_fresh]) /\
  deduplicate_translations [greeting_fresh] = [greeting_fresh].
Proof.
  assert (H : NoDup (unique_key <$> [greeting_fresh])).
  { apply NoDup_singleton. }
  split; [exact H|].
  exact (proj2 (deduplicate_translations_idempotent [greeting_fresh]) H).
Defined.

Lemma rebuild_total_witness :
  Forall (fun t => plain_value (translated_value t)) [greeting_item] /\
  exists new_content,
    build_new_content greeting_source [greeting_item] = Some new_content.
Proof.
  assert (H : Forall (fun t => plain_value (translated_value t))
                [greeting_item]).
  { constructor; [|constructor]. split; [|reflexivity].
    repeat constructor; discriminate. }
  split; [exact H|].
  exact (rebuild_total greeting_source [greeting_item] H).
Defined.

Lemma digit_translation_raises_witness :
  matched (re_search (anchored_pattern quote1 quote1 five_items)
             five_items_line) = true /\
  ascii_digit 53 = true /\
  update_line_translation five_items_line five_items five_anasir 0 = None.
Proof.
  assert (H1 : matched (re_search (anchored_pattern quote1 quote1 five_items)
                          five_items_line) = true)
    by (vm_compute; reflexivity).
  assert (H2 : ascii_digit 53 = true) by reflexivity.
  split; [exact H1|]. split; [exact H2|].
  exact (proj1 (digit_translation_raises five_items_line five_items 53
                  (u " " ++ [1593; 1606; 1575; 1589; 1585]) 0 H1 H2
                  (or_intror eq_refl))).
Defined.

Lemma similarity_properties_witness :
  word_set (u "hello") <> ∅ /\
  (calculate_similarity (u "hello") (u "hello") == 1)%Q.
Proof.
  assert (H : word_set (u "hello") <> ∅).
  { intros E. apply (f_equal size) in E. vm_compute in E. discriminate. }
  split; [exact H|].
  exact (proj2 (proj2 (proj2
           (similarity_properties (u "hello") (u "hello")))) H).
Defined.

(** ** Rewriting keeps the lines apart *)

Lemma split_on_one_line sep l :
  Forall (fun c => c <> sep) l -> split_on sep l = [l].
Proof.
  intros H. induction H as [|c l Hc Hl IH]; simpl; [reflexivity|].
  replace (c =? sep) with false by (symmetry; apply Z.eqb_neq; exact Hc).
  rewrite IH. reflexivity.
Qed.

Lemma split_on_app_sep sep l s :
  Forall (fun c => c <> sep) l ->
  split_on sep (l ++ sep :: s) = l :: split_on sep s.
Proof.
  intros H. induction H as [|c l Hc Hl IH]; simpl.
  - rewrite Z.eqb_refl. reflexivity.
  - replace (c =? sep) with false by (symmetry; apply Z.eqb_neq; exact Hc).
    rewrite IH. reflexivity.
Qed.

(** Joining lines that hold no separator and splitting again gives the
    lines. *)
Lemma split_join sep lines :
  lines <> [] -> Forall (Forall (fun c => c <> sep)) lines ->
  split_on sep (join_on sep lines) = lines.
Proof.
  intros Hne H. induction H as [|l ls Hl Hls IH]; [contradiction|].
  destruct ls as [|l' ls].
  - simpl. apply split_on_one_line, Hl.
  - change (join_on sep (l :: l' :: ls))
      with (l ++ sep :: join_on sep (l' :: ls)).
    rewrite split_on_app_sep by exact Hl. f_equal. apply IH. discriminate.
Qed.

Lemma replace_from_within (P : Z -> Prop) old new s :
  Forall P new -> Forall P s ->
  forall skip, Forall P (replace_from old new skip s).
Proof.
  intros Hn Hs. induction Hs as [|c s Hc Hs IH]; intros skip;
    cbn [replace_from]; [constructor|].
  destruct skip; [|apply IH].
  destruct (startswith (c :: s) old).
  - apply Forall_app. split; [exact Hn|apply IH].
  - constructor; [exact Hc|apply IH].
Qed.

Lemma replace_within (P : Z -> Prop) old new s :
  Forall P new -> Forall P s -> Forall P (replace old new s).
Proof.
  intros Hn Hs. unfold replace. destruct old.
  - apply Forall_app. split; [exact Hn|].
    induction Hs as [|c s Hc Hs IH]; simpl; [constructor|].
    constructor; [exact Hc|]. apply Forall_app. split; [exact Hn|exact IH].
  - apply replace_from_within; assumption.
Qed.

Lemma shift_within (P : Z -> Prop) n sn rs sn' rs' :
  shift n sn rs = (sn', rs') -> Forall P sn -> Forall P rs ->
  Forall P sn' /\ Forall P rs'.
Proof.
  revert sn rs. induction n as [|n IH]; intros sn rs H Hsn Hrs; simpl in H.
  - injection H as <- <-. auto.
  - destruct rs as [|c rs]; [injection H as <- <-; auto|].
    inversion Hrs; subst. eapply IH; [exact H| |assumption].
    constructor; assumption.
Qed.

Section WithinFacts.
Context {ud : UnicodeData}.
Variable P : Z -> Prop.

Lemma consume_within n st : state_within P st -> state_within P (consume n st).
Proof.
  intros (Hs & Hr & Hc). unfold consume.
  destruct (shift n (seen st) (rest st)) as [sn rs] eqn:E.
  destruct (shift_within P _ _ _ _ _ E Hs Hr) as [Hs' Hr'].
  repeat split; assumption.
Qed.

Lemma m_nodes_within ok r :
  forall st st', m_nodes ok r st = Some st' ->
                 state_within P st -> state_within P st'.
Proof.
  induction r as [|n r IH]; intros st st' H Hst; cbn [m_nodes] in H.
  - destruct (ok st); [|discriminate]. injection H as <-. exact Hst.
  - destruct n.
    + destruct (_ <=? _)%nat; [|discriminate].
      apply give_back_some in H as (m & H).
      eapply IH; [exact H|]. apply consume_within, Hst.
    + destruct (startswith _ _); [|discriminate].
      eapply IH; [exact H|]. apply consume_within, Hst.
    + destruct (seen st) eqn:E; [|discriminate]. eapply IH; eassumption.
    + destruct (rest st) as [|c [|c' l]] eqn:E; try discriminate.
      * eapply IH; eassumption.
      * destruct (c =? 10); [|discriminate]. eapply IH; eassumption.
    + destruct (xorb _ _); [|discriminate]. eapply IH; eassumption.
    + eapply IH; [exact H|]. destruct Hst as (Hs & Hr & Hc).
      repeat split; assumption.
    + eapply IH; [exact H|]. destruct Hst as (Hs & Hr & Hc).
      repeat split; try assumption. cbn [caps].
      constructor; [|exact Hc]. cbn [snd].
      apply Forall_rev, Forall_take, Hs.
Qed.

Lemma match_at_within adv r sn rs m :
  match_at adv r sn rs = Some m -> Forall P sn -> Forall P rs ->
  match_within P m.
Proof.
  unfold match_at. intros H Hsn Hrs.
  destruct (m_nodes _ r _) as [st|] eqn:E; [|discriminate].
  injection H as <-.
  apply m_nodes_within in E as (Hs & _ & Hc);
    [|repeat split; try assumption; constructor].
  split; cbn [m_text m_groups]; [|exact Hc].
  apply Forall_rev, Forall_take, Hs.
Qed.

Lemma matches_here_within r sn rs :
  Forall P sn -> Forall P rs -> Forall (match_within P) (matches_here r sn rs).
Proof.
  intros Hsn Hrs. unfold matches_here.
  destruct (match_at false r sn rs) as [m|] eqn:E; [|constructor].
  apply match_at_within in E; [|assumption..].
  destruct (_ =? _)%nat; [|constructor; [exact E|constructor]].
  constructor; [exact E|].
  destruct (match_at true r sn rs) as [m2|] eqn:E2; [|constructor].
  apply match_at_within in E2; [|assumption..].
  constructor; [exact E2|constructor].
Qed.

Lemma scan_within r rs :
  forall k sn, Forall P sn -> Forall P rs ->
               Forall (match_within P) (scan r k sn rs).
Proof.
  induction rs as [|c rs IH]; intros k sn Hsn Hrs.
  - destruct k; cbn [scan]; [|constructor]. rewrite app_nil_r.
    apply matches_here_within; assumption.
  - inversion Hrs; subst.
    destruct k; cbn [scan].
    + apply Forall_app. split; [apply matches_here_within; assumption|].
      apply IH; [constructor|]; assumption.
    + apply IH; [constructor|]; assumption.
Qed.

Lemma group_within m g : match_within P m -> Forall P (group m g).
Proof.
  intros [Ht Hg]. destruct g; cbn [group]; [exact Ht|].
  generalize dependent (m_groups m). intros l Hl.
  induction Hl as [|[h x] l Hx Hl IH]; cbn [assoc]; [constructor|].
  destruct (h =? S g)%nat; [exact Hx|exact IH].
Qed.

Lemma expand_within tpl m :
  Forall (fun i => match i with TChar c => P c | TGroup _ => True end) tpl ->
  match_within P m -> Forall P (expand tpl m).
Proof.
  intros Ht Hm. unfold expand.
  induction Ht as [|i tpl Hi Ht IH]; simpl; [constructor|].
  apply Forall_app. split; [|exact IH].
  destruct i; [repeat constructor; exact Hi|apply group_within, Hm].
Qed.

Lemma assemble_within tpl s ms :
  Forall (fun i => match i with TChar c => P c | TGroup _ => True end) tpl ->
  Forall P s -> Forall (match_within P) ms ->
  forall pos, Forall P (assemble tpl s pos ms).
Proof.
  intros Ht Hs Hms. induction Hms as [|m ms Hm Hms IH]; intros pos;
    cbn [assemble].
  - apply Forall_drop, Hs.
  - apply Forall_app. split; [apply Forall_take, Forall_drop, Hs|].
    apply Forall_app. split; [apply expand_within; assumption|apply IH].
Qed.

End WithinFacts.

Lemma split_on_lines sep s :
  Forall (Forall (fun c => c <> sep)) (split_on sep s).
Proof.
  induction s as [|c s IH]; simpl; [repeat constructor|].
  destruct (Z.eqb_spec c sep) as [->|Hne].
  - constructor; [constructor|exact IH].
  - destruct (split_on sep s) as [|l ls]; [repeat constructor; exact Hne|].
    inversion IH; subst. constructor; [|assumption].
    constructor; assumption.
Qed.

Section LinesApart.
Context {ud : UnicodeData}.

Lemma tpl_within_chars (P : Z -> Prop) cs :
  Forall P cs -> tpl_within P (List.map TChar cs).
Proof.
  intros H. unfold tpl_within.
  induction H; simpl; constructor; assumption.
Qed.

Lemma try_replacements_within (P : Z -> Prop) pairs line l :
  Forall (fun pr => exists tpl,
            parse_template (count_groups pr.1) (length pr.2) pr.2 = Some tpl
            /\ tpl_within P tpl) pairs ->
  Forall P line ->
  try_replacements pairs line = Some (Some l) -> Forall P l.
Proof.
  intros Hp Hl. induction Hp as [|[p rep] pairs (tpl & Ht & Hw) Hps IH];
    cbn [try_replacements]; [discriminate|].
  destruct (matched (re_search p line)); [|exact IH].
  unfold re_sub. cbn [fst snd] in Ht. rewrite Ht.
  destruct (bool_decide _); [|exact IH].
  intros [= <-]. apply assemble_within; [exact Hw|exact Hl|].
  apply scan_within; [constructor|exact Hl].
Qed.

Lemma escape_within (P : Z -> Prop) new_value :
  P backslash -> Forall P new_value ->
  Forall P (flat_map escape_quote new_value).
Proof.
  intros Hb H. induction H as [|c nv Hc Hnv IH]; simpl; [constructor|].
  apply Forall_app. split; [|exact IH].
  unfold escape_quote.
  destruct (Z.eqb_spec c quote1) as [->|];
    [|destruct (Z.eqb_spec c quote2) as [->|]]; repeat constructor;
    assumption.
Qed.

(** For a plain new value, the line returned is made of characters of the
    line, of the new value, and of backslashes. *)
Lemma update_line_translation_within (P : Z -> Prop) line original_value
    new_value index l :
  plain_value new_value -> P backslash -> P quote1 -> P quote2 ->
  Forall P new_value -> Forall P line ->
  update_line_translation line original_value new_value index = Some l ->
  Forall P l.
Proof.
  intros Hp Hb H1 H2 Hn Hl. unfold update_line_translation.
  rewrite new_value_safe_escape.
  pose proof (escape_within P new_value Hb Hn) as He.
  pose proof (try_replacements_within P
                (replacement_patterns original_value
                   (flat_map escape_quote new_value)) line) as Ht.
  destruct (try_replacements _ line) as [[l'|]|]; [| |discriminate].
  - intros [= <-]. apply Ht; [|exact Hl|reflexivity].
    unfold replacement_patterns.
    repeat constructor; cbn [fst snd];
      try (change (count_groups (anchored_pattern _ _ original_value))
             with 2%nat;
           eexists; split;
           [apply group_template_parses;
            [lia|exact Hp|discriminate|reflexivity]|];
           constructor; [exact I|];
           apply Forall_app; split;
           [apply tpl_within_chars, He|repeat constructor; assumption]).
    change (count_groups [WordB; Lit original_value; WordB]) with 0%nat.
    eexists. split; [apply literal_template_parses, Hp|].
    apply tpl_within_chars, He.
  - destruct (contains line original_value); intros [= <-]; [|exact Hl].
    apply replace_within; assumption.
Qed.

Lemma rewrite_lines_within (P : Z -> Prop) items :
  P backslash -> P quote1 -> P quote2 ->
  Forall (fun t => plain_value (translated_value t) /\
                   Forall P (translated_value t)) items ->
  forall lines lines',
  rewrite_lines items lines = Some lines' ->
  Forall (Forall P) lines -> Forall (Forall P) lines'.
Proof.
  intros Hb H1 H2 H. induction H as [|t ts [Hp Ht] Hts IH];
    intros lines lines' Hr Hl; cbn [rewrite_lines] in Hr.
  - injection Hr as <-. exact Hl.
  - destruct (rewritable t); [|eapply IH; eassumption].
    destruct (_ && _); [|eapply IH; eassumption].
    destruct (lines !! Z.to_nat (line_number t - 1)) as [line|] eqn:E;
      [|eapply IH; eassumption].
    destruct (update_line_translation line _ _ _) as [updated|] eqn:Eu;
      [|discriminate].
    destruct (bool_decide _); [|eapply IH; eassumption].
    eapply IH; [exact Hr|]. apply Forall_insert; [exact Hl|].
    exact (update_line_translation_within P line _ _ _ updated Hp Hb H1 H2 Ht
             (Forall_lookup_1 (Forall P) _ _ _ Hl E) Eu).
Qed.

(** X20. When no translated value holds a backslash or a line feed or
    begins with a digit, rebuilding gives a text with as many lines as the
    content, and every line that no rewritable item addresses is the line of
    the content. *)
Theorem rebuild_keeps_lines (content : str) (items : list TranslationItem) :
  Forall (fun t => plain_value (translated_value t) /\
                   one_line (translated_value t)) items ->
  exists new_content,
    build_new_content content items = Some new_content /\
    length (split_on LF new_content) = length (split_on LF content) /\
    forall i,
      (forall t, t ∈ items -> rewritable t = true ->
                 line_number t <> Z.of_nat i + 1) ->
      split_on LF new_content !! i = split_on LF content !! i.
Proof.
  intros H.
  assert (Hplain : Forall (fun t => plain_value (translated_value t))
                     (sorted_desc items)).
  { apply sorted_desc_Forall. eapply Forall_impl; [exact H|].
    intros t [Hp _]. exact Hp. }
  pose proof (rewrite_lines_total _ Hplain (split_on LF content)) as Ht.
  destruct (rewrite_lines (sorted_desc items) (split_on LF content))
    as [lines'|] eqn:E; [|contradiction].
  exists (join_on LF lines'). unfold build_new_content. rewrite E.
  split; [reflexivity|].
  pose proof E as Hw.
  apply (rewrite_lines_within (fun c => c <> LF)) in Hw;
    [|discriminate|discriminate|discriminate
     |apply sorted_desc_Forall; exact H|apply split_on_lines].
  apply rewrite_lines_frame in E as [Hlen Hf].
  assert (Hne : lines' <> []).
  { intros ->. pose proof (split_on_nonempty LF content) as Hn.
    destruct (split_on LF content); [contradiction|discriminate]. }
  rewrite (split_join LF lines' Hne Hw).
  split; [exact Hlen|].
  intros i Hi. apply Hf. intros t Ht'. apply Hi.
  rewrite <- (sorted_desc_perm items). exact Ht'.
Qed.

End LinesApart.

(** ** Patterns with a literal that the text does not hold *)

Lemma shift_suffix n sn rs sn' rs' :
  shift n sn rs = (sn', rs') -> exists pre, rs = pre ++ rs'.
Proof.
  revert sn rs. induction n as [|n IH]; intros sn rs H; simpl in H.
  - injection H as <- <-. exists []. reflexivity.
  - destruct rs as [|c rs]; [injection H as <- <-; exists []; reflexivity|].
    apply IH in H as [pre ->]. exists (c :: pre). reflexivity.
Qed.

Lemma contains_cons_false c s p :
  contains (c :: s) p = false -> contains s p = false.
Proof. cbn [contains]. intros H. apply orb_false_iff in H. apply H. Qed.

Lemma contains_single_absent b s :
  Forall (fun c => c <> b) s -> contains s [b] = false.
Proof.
  intros H. induction H as [|c s Hc Hs IH]; [reflexivity|].
  cbn [contains startswith]. rewrite IH, orb_false_r.
  apply andb_false_iff. left. apply Z.eqb_neq. congruence.
Qed.

Lemma replace_absent b old new s :
  Forall (fun c => c <> b) s -> replace (b :: old) new s = s.
Proof.
  intros H. unfold replace. induction H as [|c s Hc Hs IH]; [reflexivity|].
  cbn [replace_from startswith].
  replace (b =? c) with false by (symmetry; apply Z.eqb_neq; congruence).
  cbn [andb]. rewrite IH. reflexivity.
Qed.

Lemma lstrip_within (P : Z -> Prop) s : Forall P s -> Forall P (lstrip s).
Proof.
  intros H. induction H as [|c s Hc Hs IH]; simpl; [constructor|].
  destruct (is_space c); [exact IH|constructor; assumption].
Qed.

Lemma strip_within (P : Z -> Prop) s : Forall P s -> Forall P (strip s).
Proof.
  intros H. unfold strip, rstrip.
  apply Forall_rev, lstrip_within, Forall_rev, lstrip_within, H.
Qed.

Section AbsentFacts.
Context {ud : UnicodeData}.

(** A match of a pattern that holds the literal [s] shows an occurrence of
    [s] in what is left of the text. *)
Lemma m_nodes_literal_rest ok r s :
  In (Lit s) r ->
  forall st st', m_nodes ok r st = Some st' -> contains (rest st) s = true.
Proof.
  assert (Hc : forall n st, contains (rest (consume n st)) s = true ->
                            contains (rest st) s = true).
  { intros n st H. unfold consume in H.
    destruct (shift n (seen st) (rest st)) as [sn rs] eqn:E.
    apply shift_suffix in E as [pre E]. rewrite E.
    apply contains_app_r. exact H. }
  induction r as [|n r IH]; intros Hin st st' H; [destruct Hin|].
  destruct Hin as [->|Hin].
  - cbn [m_nodes] in H.
    destruct (startswith (rest st) s) eqn:E; [|discriminate].
    apply startswith_contains, E.
  - specialize (IH Hin). destruct n; cbn [m_nodes] in H.
    + destruct (_ <=? _)%nat; [|discriminate].
      apply give_back_some in H as (m & H). apply IH in H.
      eapply Hc; exact H.
    + destruct (startswith (rest st) s0); [|discriminate].
      apply IH in H. eapply Hc; exact H.
    + destruct (seen st); [|discriminate]. eapply IH; exact H.
    + destruct (rest st) as [|c [|c' l]] eqn:E; try discriminate.
      * apply IH in H. cbn [rest] in H. rewrite E in H. exact H.
      * destruct (c =? 10); [|discriminate].
        apply IH in H. rewrite E in H. exact H.
    + destruct (xorb _ _); [|discriminate]. eapply IH; exact H.
    + apply IH in H. exact H.
    + apply IH in H. exact H.
Qed.

Lemma match_at_literal_absent adv r s sn rs :
  In (Lit s) r -> contains rs s = false -> match_at adv r sn rs = None.
Proof.
  intros Hin Hc. unfold match_at.
  destruct (m_nodes _ r (MState sn rs [] [])) eqn:E; [|reflexivity].
  apply (m_nodes_literal_rest _ _ _ Hin) in E. cbn [rest] in E. congruence.
Qed.

Lemma scan_literal_absent r s rs :
  In (Lit s) r -> contains rs s = false ->
  forall k sn, scan r k sn rs = [].
Proof.
  intros Hin. induction rs as [|c rs IH]; intros Hc k sn.
  - destruct k; cbn [scan]; [|reflexivity]. unfold matches_here.
    rewrite (match_at_literal_absent false r s) by assumption. reflexivity.
  - pose proof (contains_cons_false _ _ _ Hc) as Hc'.
    destruct k; cbn [scan]; [|apply IH, Hc'].
    unfold matches_here.
    rewrite (match_at_literal_absent false r s) by assumption.
    cbn [List.map List.last app]. apply IH, Hc'.
Qed.

Lemma re_delete_absent r s text :
  In (Lit s) r -> contains text s = false -> re_delete r text = text.
Proof.
  intros Hin Hc. unfold re_delete, re_finditer.
  rewrite (scan_literal_absent r s text Hin Hc). reflexivity.
Qed.

(** X21. On a text without a backslash [_clean_extracted_text] only strips
    the white space around it. *)
Theorem clean_without_backslash (text : str) :
  Forall (fun c => c <> backslash) text ->
  clean_extracted_text text = strip text.
Proof.
  intros H. unfold clean_extracted_text.
  destruct text as [|c text]; [reflexivity|].
  set (t := strip (c :: text)).
  assert (Ht : Forall (fun c => c <> backslash) t)
    by (apply strip_within, H).
  change (u "\n") with [backslash; 110]. change (u "\t") with [backslash; 116].
  rewrite (replace_absent backslash [110] [10] t Ht).
  rewrite (replace_absent backslash [116] [9] t Ht).
  rewrite (replace_absent backslash [quote2] [quote2] t Ht).
  rewrite (replace_absent backslash [quote1] [quote1] t Ht).
  apply (re_delete_absent _ [backslash]); [simpl; tauto|].
  apply contains_single_absent, Ht.
Qed.

End AbsentFacts.

(** ** Two more statements at concrete inputs *)

Lemma rebuild_keeps_lines_witness :
  Forall (fun t => plain_value (translated_value t) /\
                   one_line (translated_value t)) [second_line_item] /\
  exists new_content,
    build_new_content two_line_source [second_line_item] = Some new_content /\
    length (split_on LF new_content) = length (split_on LF two_line_source) /\
    forall i,
      (forall t, t ∈ [second_line_item] -> rewritable t = true ->
                 line_number t <> Z.of_nat i + 1) ->
      split_on LF new_content !! i = split_on LF two_line_source !! i.
Proof.
  assert (H : Forall (fun t => plain_value (translated_value t) /\
                               one_line (translated_value t))
                [second_line_item]).
  { constructor; [|constructor]. split; [split; [|reflexivity]|];
      repeat constructor; discriminate. }
  split; [exact H|].
  exact (rebuild_keeps_lines two_line_source [second_line_item] H).
Defined.

Lemma clean_without_backslash_witness :
  Forall (fun c => c <> backslash) (u "  hello world ") /\
  clean_extracted_text (u "  hello world ") = strip (u "  hello world ").
Proof.
  assert (H : Forall (fun c => c <> backslash) (u "  hello world "))
    by (repeat constructor; discriminate).
  split; [exact H|].
  exact (clean_without_backslash (u "  hello world ") H).
Defined.
